(** * WD Standard Stars Calibration Plots: a shallow embedding

    The script [calpaper/paper/source/WD Standard Stars Calibration Plots.py]
    reads two photometry tables of the white dwarf LDS749B (one per GALEX
    band), selects the valid rows, counts how many corrected magnitudes fall
    inside a modelled error envelope, and draws histograms with a kernel
    density overlay whose peak it reports.

    Conventions of the embedding.
    - numpy [float64] arrays are lists of exact rationals [Q]; comparisons
      are the boolean ones of [Q].  Rounding, infinities and NaN are not
      modelled.
    - A pandas DataFrame is a list of rows; a column is the projection of
      every row.
    - Python exceptions are values [Raise cls] of a small error monad, [cls]
      being the name of the exception class.
    - The functions the script imports from the rest of gPhoton are the
      fields of the class [GPhoton]; the estimators of scikit-learn are the
      fields of the class [Sklearn].  What numpy itself does ([np.where],
      fancy indexing, [np.linspace], [np.histogram]) is written out. *)

From Stdlib Require Import String Ascii ZArith QArith Qround List Sorted Bool Lia Lqa.
From Stdlib Require Import Permutation.
Import ListNotations.

Local Open Scope string_scope.
Local Open Scope list_scope.

(* The grid of [make_kde] has 10000 points. *)
Set Warnings "-abstract-large-number".

(** ** Exceptions *)

Definition exn := string.

Inductive result (A : Type) : Type :=
| Ok (a : A)
| Raise (e : exn).

Arguments Ok {A} a.
Arguments Raise {A} e.

Definition bind {A B : Type} (c : result A) (k : A -> result B) : result B :=
  match c with
  | Ok a => k a
  | Raise e => Raise e
  end.

Notation "x <- c ;; k" := (bind c (fun x => k))
  (at level 61, c at next level, right associativity).

Definition ValueError : exn := "ValueError".
Definition IndexError : exn := "IndexError".
Definition ZeroDivisionError : exn := "ZeroDivisionError".

(** ** The numpy operations the script uses *)

Definition Qlt_bool (x y : Q) : bool := negb (Qle_bool y x).

(** Elementwise binary operation on two arrays of one shape. *)
Fixpoint zip_with {A B C : Type} (f : A -> B -> C) (a : list A) (b : list B)
  : list C :=
  match a, b with
  | x :: a', y :: b' => f x y :: zip_with f a' b'
  | _, _ => []
  end.

(** [np.where(m)[0]]: the positions of the true entries, in increasing order. *)
Fixpoint where_from (i : nat) (m : list bool) : list nat :=
  match m with
  | [] => []
  | b :: m' => if b then i :: where_from (S i) m' else where_from (S i) m'
  end.

Definition np_where (m : list bool) : list nat := where_from 0 m.

(** [a[ix]] for an index array [ix]: IndexError when an index is out of
    bounds. *)
Fixpoint getitems {A : Type} (a : list A) (ix : list nat) : result (list A) :=
  match ix with
  | [] => Ok []
  | i :: ix' =>
      match nth_error a i with
      | None => Raise IndexError
      | Some v => vs <- getitems a ix' ;; Ok (v :: vs)
      end
  end.

(** [a[0]]. *)
Definition getitem0 {A : Type} (a : list A) : result A :=
  match a with
  | [] => Raise IndexError
  | v :: _ => Ok v
  end.

(** [a.max()]: the reduction has no identity, an empty array raises. *)
Definition np_max (a : list Q) : result Q :=
  match a with
  | [] => Raise ValueError
  | v :: vs => Ok (fold_left (fun m w => if Qlt_bool m w then w else m) vs v)
  end.

(** [np.linspace(start, stop, num)]: [num] points, the first [num - 1] at
    [start + i * step] with [step = (stop - start) / (num - 1)], the last one
    set to [stop]. *)
Definition linspace (start stop : Q) (num : nat) : list Q :=
  match num with
  | O => []
  | S O => [start]
  | S div =>
      let step := (stop - start) / inject_Z (Z.of_nat div) in
      map (fun i => start + inject_Z (Z.of_nat i) * step) (seq 0 div) ++ [stop]
  end.

(** [np.histogram(a, bins, range)[0]]: [bins] equal-width bins over
    [range]; every bin but the last is half-open, the last one is closed;
    values outside [range] are ignored. *)
Definition in_bin (edges : list Q) (bins i : nat) (v : Q) : bool :=
  Qle_bool (nth i edges 0) v &&
  (if Nat.eqb (S i) bins
   then Qle_bool v (nth (S i) edges 0)
   else Qlt_bool v (nth (S i) edges 0)).

Definition np_histogram (a : list Q) (bins : nat) (range : Q * Q) : list nat :=
  let edges := linspace (fst range) (snd range) (S bins) in
  map (fun i => length (filter (in_bin edges bins i) a)) (seq 0 bins).

(** Python 2 [a / b] on two ints: floor division, ZeroDivisionError on a
    zero divisor. *)
Definition py_div (a b : Z) : result Z :=
  if (b =? 0)%Z then Raise ZeroDivisionError else Ok (a / b)%Z.

(** ** The measurement tables *)

Inductive Band : Type := FUV | NUV.

Definition band_name (b : Band) : string :=
  match b with FUV => "FUV" | NUV => "NUV" end.

(** The columns of [read_lc]'s table that the computations read (the error
    columns are only drawn). *)
Record Row : Type := mkRow {
  exptime : Q;
  flags : Z;
  aper4 : Q;
  mag_mcatbgsub : Q
}.

Definition DataFrame := list Row.

Definition column {A : Type} (f : Row -> A) (df : DataFrame) : list A :=
  map f df.

(** Reference variables of the script. *)
Definition outpath : string := ".".
Definition target : string := "LDS749B_90as".
Definition radius : Q := 25 # 1000.
Definition nsigma : Q := 3.
Definition bincnt : nat := 50.

Definition refmag (b : Band) : Q :=
  match b with FUV => 156 # 10 | NUV => 1476 # 100 end.

(** [ix[band] = np.where((data[band]['flags']==0) & (data[band]['aper4']>0))]. *)
Definition valid_mask (df : DataFrame) : list bool :=
  zip_with andb
    (map (fun f => (f =? 0)%Z) (column flags df))
    (map (fun a => Qlt_bool 0 a) (column aper4 df)).

Definition ix (df : DataFrame) : list nat := np_where (valid_mask df).

(** The same test, row by row. *)
Definition valid (r : Row) : bool := (flags r =? 0)%Z && Qlt_bool 0 (aper4 r).

(** ** The gPhoton functions the script imports

    [gt.apcorrect1], [gt.aper2deg] and [data_errors] live in other modules of
    gPhoton; the script only calls them.

    Modelled from the spec: the error envelope is a pair of functions of the
    exposure time, the first component the numerically larger ("lower")
    bound, the second the numerically smaller ("upper") bound; on an array of
    exposure times it is evaluated at every entry. *)
Class GPhoton : Type := {
  apcorrect1 : Q -> Band -> Q;
  aper2deg : Z -> Q;
  data_errors : Q -> Band -> Q -> Q -> Q * Q
}.

Definition data_errors_array `{GPhoton} (catmag : Q) (band : Band)
  (t : list Q) (sigma : Q) : list Q * list Q :=
  (map (fun ti => fst (data_errors catmag band ti sigma)) t,
   map (fun ti => snd (data_errors catmag band ti sigma)) t).

(** ** Containment inside the error bounds

    [a,b = data_errors(refmag[band],band,exptime[ix[band]],sigma=nsigma)]
    [cnt = len(np.where((mags[ix[band]]-apc>=b) & (mags[ix[band]]-apc<=a))[0])] *)
Definition count_within `{GPhoton} (mags : list Q) (apc : Q) (band : Band)
  (df : DataFrame) (sigma : Q) : result nat :=
  t <- getitems (column exptime df) (ix df) ;;
  let '(a, b) := data_errors_array (refmag band) band t sigma in
  m <- getitems mags (ix df) ;;
  let corrected := map (fun v => v - apc) m in
  Ok (length (np_where
        (zip_with andb
           (zip_with (fun v bi => Qle_bool bi v) corrected b)
           (zip_with (fun v ai => Qle_bool v ai) corrected a)))).

(** The gAperture block corrects [mag_mcatbgsub] for the aperture [radius],
    the MCAT block corrects [aper4] for the catalog aperture 4. *)
Definition cnt_gAperture `{GPhoton} (band : Band) (df : DataFrame) (sigma : Q)
  : result nat :=
  count_within (column mag_mcatbgsub df) (apcorrect1 radius band) band df sigma.

Definition cnt_MCAT `{GPhoton} (band : Band) (df : DataFrame) (sigma : Q)
  : result nat :=
  count_within (column aper4 df) (apcorrect1 (aper2deg 4) band) band df sigma.

(** [p=100*cnt/len(ix[band][0])], on Python 2 ints. *)
Definition percent (cnt total : nat) : result Z :=
  py_div (100 * Z.of_nat cnt) (Z.of_nat total).

(** What the [print] of a time-series block shows: n, m and p. *)
Definition report_gAperture `{GPhoton} (band : Band) (df : DataFrame) (sigma : Q)
  : result (nat * nat * Z) :=
  cnt <- cnt_gAperture band df sigma ;;
  p <- percent cnt (length (ix df)) ;;
  Ok (cnt, length (ix df), p).

Definition report_MCAT `{GPhoton} (band : Band) (df : DataFrame) (sigma : Q)
  : result (nat * nat * Z) :=
  cnt <- cnt_MCAT band df sigma ;;
  p <- percent cnt (length (ix df)) ;;
  Ok (cnt, length (ix df), p).

(** ** The distribution histograms *)

Definition magrange_gAperture (band : Band) : Q * Q :=
  (refmag band - (2 # 10), refmag band + (7 # 10)).

Definition magrange_MCAT (band : Band) : Q * Q :=
  (refmag band - (2 # 10), refmag band + (6 # 10)).

Definition mags_gAperture `{GPhoton} (band : Band) (df : DataFrame) : list Q :=
  map (fun v => v - apcorrect1 radius band) (column mag_mcatbgsub df).

Definition mags_MCAT `{GPhoton} (band : Band) (df : DataFrame) : list Q :=
  map (fun v => v - apcorrect1 (aper2deg 4) band) (column aper4 df).

(** The bin counts behind
    [plt.hist(mags[ix[band]],bins=bincnt,range=magrange,normed=1)]. *)
Definition hist_gAperture `{GPhoton} (band : Band) (df : DataFrame)
  : result (list nat) :=
  s <- getitems (mags_gAperture band df) (ix df) ;;
  Ok (np_histogram s bincnt (magrange_gAperture band)).

Definition hist_MCAT `{GPhoton} (band : Band) (df : DataFrame)
  : result (list nat) :=
  s <- getitems (mags_MCAT band df) (ix df) ;;
  Ok (np_histogram s bincnt (magrange_MCAT band)).

Definition bin_width (bins : nat) (range : Q * Q) : Q :=
  (snd range - fst range) / inject_Z (Z.of_nat bins).

(** [normed=1] draws every count divided by the number of counted samples
    times the bin width. *)
Definition normed (counts : list nat) (bins : nat) (range : Q * Q) : list Q :=
  let total := inject_Z (Z.of_nat (list_sum counts)) in
  map (fun c => inject_Z (Z.of_nat c) / (total * bin_width bins range)) counts.

Definition Qsum (l : list Q) : Q := fold_right Qplus 0 l.

(** ** Output file names *)

Definition KeyError : exn := "KeyError".

Fixpoint lookup (k : string) (kw : list (string * string)) : option string :=
  match kw with
  | [] => None
  | (k', v) :: kw' => if String.eqb k k' then Some v else lookup k kw'
  end.

(** [template.format(k1=v1, ...)] for templates with named fields: a field the
    keywords lack raises KeyError, a keyword no field names is ignored. *)
Fixpoint format_from (t : string) (field : option string)
  (kw : list (string * string)) : result string :=
  match t with
  | EmptyString =>
      match field with
      | None => Ok EmptyString
      | Some _ => Raise ValueError
      end
  | String c t' =>
      match field with
      | None =>
          if Ascii.eqb c "{"%char then format_from t' (Some EmptyString) kw
          else s <- format_from t' None kw ;; Ok (String c s)
      | Some f =>
          if Ascii.eqb c "}"%char then
            match lookup f kw with
            | None => Raise KeyError
            | Some v => s <- format_from t' None kw ;; Ok (String.append v s)
            end
          else format_from t' (Some (String.append f (String c EmptyString))) kw
      end
  end.

Definition format (t : string) (kw : list (string * string)) : result string :=
  format_from t None kw.

Inductive PlotKind : Type := TimeSeries | Distribution.

(** "Processed" magnitudes are gAperture's, "catalog" magnitudes the MCAT's. *)
Inductive Source : Type := Processed | Catalog.

Definition savefig_template (kind : PlotKind) (src : Source) : string :=
  match kind, src with
  | TimeSeries, Processed => "{path}/{target}_ABMag_{b}.pdf"
  | Distribution, Processed => "{path}/{target}_ABMag_dist.pdf"
  | TimeSeries, Catalog => "{path}/{target}_ABMag_{b}_MCAT.pdf"
  | Distribution, Catalog => "{path}/{target}_ABMag_dist_MCAT.pdf"
  end.

(** Every [plt.savefig] formats its template with [path=outpath],
    [target=target] and [b=band]. *)
Definition savefig_name (band : Band) (kind : PlotKind) (src : Source)
  : result string :=
  format (savefig_template kind src)
    [("path", outpath); ("target", target); ("b", band_name band)].

(** ** The kernel density estimate *)

(** The hyper-parameters of [sklearn.neighbors.KernelDensity] that matter
    here.

    Modelled from the spec: the density estimator has a Gaussian kernel (the
    script passes no kernel, the constructor's default applies). *)
Record KernelDensity : Type := mkKernelDensity {
  bandwidth : Q;
  kernel : string
}.

Definition KernelDensity_new (bw : option Q) : KernelDensity :=
  {| bandwidth := match bw with Some h => h | None => 1 end;
     kernel := "gaussian" |}.

Definition set_bandwidth (est : KernelDensity) (h : Q) : KernelDensity :=
  {| bandwidth := h; kernel := kernel est |}.

(** What scikit-learn and [np.exp] compute is not part of the script:
    - [cross_val_score est data cv]: the mean over the [cv] folds of the
      held-out log-likelihood of [est] (it may raise, for instance when there
      are fewer samples than folds);
    - [fit est data]: the fitted estimator, given by its [score_samples], the
      log-density at a point;
    - [np_exp]: the exponential. *)
Class Sklearn : Type := {
  cross_val_score : KernelDensity -> list Q -> nat -> result Q;
  fit : KernelDensity -> list Q -> result (Q -> Q);
  np_exp : Q -> Q
}.

(** [GridSearchCV(est, {'bandwidth': grid}, cv=cv)]: every candidate is
    scored in the order of the grid. *)
Fixpoint grid_scores `{Sklearn} (est : KernelDensity) (grid : list Q)
  (data : list Q) (cv : nat) : result (list (Q * Q)) :=
  match grid with
  | [] => Ok []
  | h :: grid' =>
      s <- cross_val_score (set_bandwidth est h) data cv ;;
      rest <- grid_scores est grid' data cv ;;
      Ok ((h, s) :: rest)
  end.

(** Modelled from the spec: the search keeps the first candidate that
    achieves the maximum score (the stable ordering of the linear sweep): a
    later candidate replaces the current best only when its score is
    strictly larger. *)
Fixpoint best_from (cur : Q * Q) (rest : list (Q * Q)) : Q * Q :=
  match rest with
  | [] => cur
  | c :: rest' =>
      if Qlt_bool (snd cur) (snd c) then best_from c rest'
      else best_from cur rest'
  end.

Definition best_params (scores : list (Q * Q)) : result Q :=
  match scores with
  | [] => Raise ValueError
  | c :: rest => Ok (fst (best_from c rest))
  end.

(** [grid.fit(data); grid.best_params_['bandwidth']]; the search refits the
    best estimator on the whole sample before it returns. *)
Definition GridSearchCV_fit `{Sklearn} (est : KernelDensity) (grid : list Q)
  (cv : nat) (data : list Q) : result Q :=
  scores <- grid_scores est grid data cv ;;
  best <- best_params scores ;;
  _ <- fit (set_bandwidth est best) data ;;
  Ok best.

Definition default_bwrange : Q * Q := (1 # 100, 1).

(** [make_kde(data,datarange,bwrange=[0.01,1])], returning
    [x,y,peak,bandwidth]. *)
Definition make_kde `{Sklearn} (data : list Q) (datarange bwrange : Q * Q)
  : result (list Q * list Q * Q * Q) :=
  bandwidth <- GridSearchCV_fit (KernelDensity_new None)
                 (linspace (fst bwrange) (snd bwrange) 100) 20 data ;;
  let x := linspace (fst datarange) (snd datarange) 10000 in
  let kde_skl := KernelDensity_new (Some bandwidth) in
  score_samples <- fit kde_skl data ;;
  let log_pdf := map score_samples x in
  let y := map np_exp log_pdf in
  ymax <- np_max y ;;
  at_max <- getitems x (np_where (map (fun v => Qeq_bool v ymax) y)) ;;
  peak <- getitem0 at_max ;;
  Ok (x, y, peak, bandwidth).

(** The two calls of the script: [make_kde(mags[ix[band]],magrange)]. *)
Definition kde_gAperture `{GPhoton} `{Sklearn} (band : Band) (df : DataFrame)
  : result (list Q * list Q * Q * Q) :=
  s <- getitems (mags_gAperture band df) (ix df) ;;
  make_kde s (magrange_gAperture band) default_bwrange.

Definition kde_MCAT `{GPhoton} `{Sklearn} (band : Band) (df : DataFrame)
  : result (list Q * list Q * Q * Q) :=
  s <- getitems (mags_MCAT band df) (ix df) ;;
  make_kde s (magrange_MCAT band) default_bwrange.

(** A sample is degenerate when it has fewer than two distinct values. *)
Fixpoint distinct (l : list Q) : list Q :=
  match l with
  | [] => []
  | v :: l' => v :: filter (fun w => negb (Qeq_bool v w)) (distinct l')
  end.

Definition degenerate (data : list Q) : bool :=
  Nat.ltb (length (distinct data)) 2.

Definition InsufficientDataError : exn := "InsufficientDataError".

(** ** Computable stand-ins for the imported functions

    Used only to run the model on concrete tables.  The envelope shrinks
    with the exposure time like the modelled one; the estimator uses a
    Cauchy kernel (rational) in the place of the Gaussian one, its density
    in the place of the log-density and the identity in the place of
    [np.exp]; cross-validation uses contiguous folds and refuses a sample
    smaller than the number of folds, as scikit-learn's KFold does. *)
Module Demo.

Definition gphoton : GPhoton := {|
  apcorrect1 := fun r _ => if Qle_bool r (173 # 36000) then 1 # 10 else 0;
  aper2deg := fun code => if (code =? 4)%Z then 6 # 3600 else 0;
  data_errors := fun catmag _ t sigma =>
    (catmag + sigma / (10 + t), catmag - sigma / (10 + t))
|}.

Definition mean (l : list Q) : Q :=
  Qred (fold_right Qplus 0 l / inject_Z (Z.of_nat (length l))).

Definition density (h : Q) (train : list Q) (x : Q) : Q :=
  mean (map (fun xi => Qred (h / (h * h + (x - xi) * (x - xi)))) train).

Fixpoint fold_scores (h : Q) (done todo : list Q) (sizes : list nat) : list Q :=
  match sizes with
  | [] => []
  | n :: sizes' =>
      let test := firstn n todo in
      let todo' := skipn n todo in
      mean (map (density h (done ++ todo')) test)
        :: fold_scores h (done ++ test) todo' sizes'
  end.

Definition fold_sizes (n k : nat) : list nat :=
  map (fun i => n / k + (if Nat.ltb i (n mod k) then 1 else 0))%nat (seq 0 k).

Definition sklearn : Sklearn := {|
  cross_val_score := fun est data cv =>
    if Nat.ltb (length data) cv then Raise ValueError
    else Ok (mean (fold_scores (bandwidth est) [] data
                     (fold_sizes (length data) cv)));
  fit := fun est data =>
    match data with
    | [] => Raise ValueError
    | _ => Ok (density (bandwidth est) data)
    end;
  np_exp := fun v => v
|}.

(** Ten rows, eight of them valid: row 2 is flagged, row 5 has no catalog
    magnitude. *)
Definition table10 : DataFrame :=
  [ mkRow 100 0 (157 # 10) (156 # 10);
    mkRow 110 0 (158 # 10) (157 # 10);
    mkRow 90 4 (157 # 10) (156 # 10);
    mkRow 200 0 (156 # 10) (1561 # 100);
    mkRow 50 0 (159 # 10) (155 # 10);
    mkRow 120 0 (-999) (156 # 10);
    mkRow 30 0 (157 # 10) (170 # 10);
    mkRow 300 0 (1571 # 100) (1559 # 100);
    mkRow 150 0 (1569 # 100) (1562 # 100);
    mkRow 80 0 (20) (1560 # 100) ].

(** Twenty equal magnitudes: a degenerate sample that is large enough for
    twenty folds. *)
Definition flat_sample : list Q := repeat (156 # 10) 20.

End Demo.

(** ** Row-wise readings used to state the properties *)

(** The corrected magnitude [m] of an observation of exposure time [t] lies
    between the two bounds evaluated at [t]. *)
Definition within `{GPhoton} (band : Band) (sigma m t : Q) : bool :=
  Qle_bool (snd (data_errors (refmag band) band t sigma)) m &&
  Qle_bool m (fst (data_errors (refmag band) band t sigma)).

Definition counted_gAperture `{GPhoton} (band : Band) (sigma : Q) (r : Row)
  : bool :=
  valid r &&
  within band sigma (mag_mcatbgsub r - apcorrect1 radius band) (exptime r).

Definition counted_MCAT `{GPhoton} (band : Band) (sigma : Q) (r : Row) : bool :=
  valid r &&
  within band sigma (aper4 r - apcorrect1 (aper2deg 4) band) (exptime r).

(** The magnitude [m] lies in the closed range of a histogram. *)
Definition in_range (range : Q * Q) (m : Q) : bool :=
  Qle_bool (fst range) m && Qle_bool m (snd range).

(** The envelope at [s2] contains the envelope at [s1] at the exposure time
    of every row of the table. *)
Definition envelope_contains `{GPhoton} (band : Band) (df : DataFrame)
  (s1 s2 : Q) : Prop :=
  forall r, In r df ->
    fst (data_errors (refmag band) band (exptime r) s1)
      <= fst (data_errors (refmag band) band (exptime r) s2) /\
    snd (data_errors (refmag band) band (exptime r) s2)
      <= snd (data_errors (refmag band) band (exptime r) s1).

(** What the claim promises of one time-series block whose count at sigma
    [s] is [cnt s]. *)
Definition count_monotone (cnt : Q -> result nat) (total : nat) (s1 s2 : Q)
  : Prop :=
  exists c1 c2 : nat,
    cnt s1 = Ok c1 /\ cnt s2 = Ok c2 /\
    (c1 <= total)%nat /\ (c2 <= total)%nat /\ (c1 <= c2)%nat /\
    ((0 < total)%nat ->
     exists p1 p2 : Z,
       percent c1 total = Ok p1 /\ percent c2 total = Ok p2 /\
       (p1 <= p2)%Z /\ (p2 <= 100)%Z).

(** The [i]-th point of an evenly spaced grid of [S n] points from [a] to
    [b]. *)
Definition grid_point (a b : Q) (n i : nat) : Q :=
  if Nat.eqb i n then b
  else a + inject_Z (Z.of_nat i) * ((b - a) / inject_Z (Z.of_nat n)).

(** How many of the first [k] bins of a histogram hold the value [v]. *)
Definition bins_holding (range : Q * Q) (bins k : nat) (v : Q) : nat :=
  length (filter
            (fun i => in_bin (linspace (fst range) (snd range) (S bins)) bins i v)
            (seq 0 k)).

(** The rows a distribution histogram counts: selected by the mask, with a
    corrected magnitude inside the range of the histogram. *)
Definition binned_gAperture `{GPhoton} (band : Band) (r : Row) : bool :=
  valid r &&
  in_range (magrange_gAperture band) (mag_mcatbgsub r - apcorrect1 radius band).

Definition binned_MCAT `{GPhoton} (band : Band) (r : Row) : bool :=
  valid r &&
  in_range (magrange_MCAT band) (aper4 r - apcorrect1 (aper2deg 4) band).

(** What a returned [x,y,peak,bandwidth] satisfies.  The bandwidth is the
    candidate of index [k]: every candidate has a cross-validated score, none
    scores higher than candidate [k] and every earlier one scores strictly
    lower.  The estimator fitted to the whole sample has that bandwidth and
    the Gaussian kernel; [x] is the grid over the range, [y] the density on
    the grid, and the peak is the grid point of index [j]: no grid point has
    a higher density and every earlier one has a strictly lower density. *)
Definition kde_result `{Sklearn} (data : list Q) (datarange bwrange : Q * Q)
  (x y : list Q) (peak bw : Q) : Prop :=
  let candidates := linspace (fst bwrange) (snd bwrange) 100 in
  (exists (score : nat -> Q) (k : nat),
     (forall i h, nth_error candidates i = Some h ->
        cross_val_score {| bandwidth := h; kernel := "gaussian" |} data 20
        = Ok (score i)) /\
     nth_error candidates k = Some bw /\
     (forall i, (i < 100)%nat -> score i <= score k) /\
     (forall i, (i < k)%nat -> score i < score k)) /\
  (exists (log_pdf : Q -> Q) (j : nat),
     fit {| bandwidth := bw; kernel := "gaussian" |} data = Ok log_pdf /\
     x = linspace (fst datarange) (snd datarange) 10000 /\
     y = map (fun v => np_exp (log_pdf v)) x /\
     nth_error x j = Some peak /\
     (forall i v, nth_error y i = Some v -> v <= np_exp (log_pdf peak)) /\
     (forall i v, (i < j)%nat -> nth_error y i = Some v ->
        v < np_exp (log_pdf peak))).

(** The exception [e] was raised by scikit-learn: by the scoring of a
    candidate bandwidth or by the fit of an estimator with a candidate
    bandwidth. *)
Definition library_raised `{Sklearn} (data : list Q) (bwrange : Q * Q)
  (e : exn) : Prop :=
  exists h, In h (linspace (fst bwrange) (snd bwrange) 100) /\
    (cross_val_score {| bandwidth := h; kernel := "gaussian" |} data 20
     = Raise e \/
     fit {| bandwidth := h; kernel := "gaussian" |} data = Raise e).

(** Every scikit-learn call that [make_kde] can make on [data] returns. *)
Definition library_succeeds `{Sklearn} (data : list Q) (bwrange : Q * Q) : Prop :=
  forall h, In h (linspace (fst bwrange) (snd bwrange) 100) ->
    (exists s,
       cross_val_score {| bandwidth := h; kernel := "gaussian" |} data 20
       = Ok s) /\
    (exists f, fit {| bandwidth := h; kernel := "gaussian" |} data = Ok f).

(** The outcome of [make_kde] on the range from [r0] to [r1]: a returned peak
    is a point of the grid over the range and lies in the range, a returned
    bandwidth lies in the search range, and an exception comes from
    scikit-learn. *)
Definition peak_in_range `{Sklearn} (data : list Q) (r0 r1 : Q) : Prop :=
  match make_kde data (r0, r1) default_bwrange with
  | Ok (x, y, peak, bw) =>
      x = linspace r0 r1 10000 /\ In peak x /\
      r0 <= peak /\ peak <= r1 /\ (1 # 100) <= bw /\ bw <= 1
  | Raise e => library_raised data default_bwrange e
  end.

(** ** The rest of the script *)

(** The baseline statistics of the first loop:
    [n=len(data[band]['aper4'])] and
    [m=len(np.where(data[band]['flags']!=0)[0])]. *)
Definition row_count (df : DataFrame) : nat := length (column aper4 df).

Definition bad_count (df : DataFrame) : nat :=
  length (np_where (map (fun f => negb (f =? 0)%Z) (column flags df))).

(** [np.sort], by insertion. *)
Fixpoint insert_sorted (v : Q) (l : list Q) : list Q :=
  match l with
  | [] => [v]
  | w :: l' => if Qle_bool v w then v :: l else w :: insert_sorted v l'
  end.

Fixpoint np_sort (l : list Q) : list Q :=
  match l with
  | [] => []
  | v :: l' => insert_sorted v (np_sort l')
  end.

(** [np.median]: the middle element of the sorted array, or the mean of the
    two middle elements when their number is even.  The median of an empty
    array is nan, written [None]. *)
Definition np_median (a : list Q) : option Q :=
  let s := np_sort a in
  let n := length s in
  match n with
  | O => None
  | _ =>
      if Nat.even n
      then Some ((nth (n / 2 - 1) s 0 + nth (n / 2) s 0) / 2)
      else Some (nth (n / 2) s 0)
  end.

(** [np.median(np.array(data[band]['aper4'])[ix[band]])] of the first loop and
    [np.median(mags[ix[band]])] of the distribution blocks. *)
Definition median_aper4 (df : DataFrame) : result (option Q) :=
  s <- getitems (column aper4 df) (ix df) ;; Ok (np_median s).

Definition median_gAperture `{GPhoton} (band : Band) (df : DataFrame)
  : result (option Q) :=
  s <- getitems (mags_gAperture band df) (ix df) ;; Ok (np_median s).

Definition median_MCAT `{GPhoton} (band : Band) (df : DataFrame)
  : result (option Q) :=
  s <- getitems (mags_MCAT band df) (ix df) ;; Ok (np_median s).

(** [np.arange(a, b)] on ints. *)
Definition np_arange (a b : Z) : list Z :=
  map (fun i => (a + Z.of_nat i)%Z) (seq 0 (Z.to_nat (b - a))).

(** Elementwise [/] of two int arrays: floor division, and 0 where the
    divisor is 0 (numpy warns and does not raise). *)
Definition np_int_div (a b : Z) : Z :=
  if (b =? 0)%Z then 0%Z else (a / b)%Z.

(** [t = np.arange(tmin+1,tmax+1)] and the reference line
    [refmag[band]*(t/t)] of a time-series block. *)
Definition exposure_axis (tmin tmax : Z) : list Z :=
  np_arange (tmin + 1) (tmax + 1).

Definition reference_line (band : Band) (tmin tmax : Z) : list Q :=
  let t := exposure_axis tmin tmax in
  map (fun q => refmag band * inject_Z q) (zip_with np_int_div t t).

(** The two dashed curves, [data_errors(refmag[band],band,t,sigma=...)[0]]
    and [...[1]]: the gAperture block passes [nsigma], the MCAT block the
    literal 3. *)
Definition drawn_envelope `{GPhoton} (band : Band) (tmin tmax : Z) (sigma : Q)
  : list Q * list Q :=
  data_errors_array (refmag band) band
    (map inject_Z (exposure_axis tmin tmax)) sigma.

Definition drawn_envelope_gAperture `{GPhoton} (band : Band) (tmin tmax : Z)
  : list Q * list Q :=
  drawn_envelope band tmin tmax nsigma.

Definition drawn_envelope_MCAT `{GPhoton} (band : Band) (tmin tmax : Z)
  : list Q * list Q :=
  drawn_envelope band tmin tmax 3.

(** The outcome of [make_kde] for a search range [bwrange]: a returned
    bandwidth is one of the candidates and lies in the search range, and an
    exception comes from scikit-learn. *)
Definition bandwidth_in_range `{Sklearn} (data : list Q)
  (datarange bwrange : Q * Q) : Prop :=
  match make_kde data datarange bwrange with
  | Ok (x, y, peak, bw) =>
      In bw (linspace (fst bwrange) (snd bwrange) 100) /\
      fst bwrange <= bw /\ bw <= snd bwrange
  | Raise e => library_raised data bwrange e
  end.

(** A stand-in estimator for which every bandwidth scores the same and the
    density is the same everywhere. *)
Definition flat_sklearn : Sklearn := {|
  cross_val_score := fun _ _ _ => Ok 0;
  fit := fun _ _ => Ok (fun _ => 0);
  np_exp := fun v => v
|}.

(** ** One run of the script *)

(** What a run leaves behind: the names passed to [plt.savefig], in order,
    and the exception that ended the run, if one did.  No exception is
    caught anywhere in the script. *)
Definition Run : Type := (list string * option exn)%type.

(** A loop [for band in data.keys()] whose body ends in [plt.savefig]: the
    body of each band runs after the body of the band before it, and the
    first exception ends the run. *)
Fixpoint for_bands (body : Band -> result string) (keys : list Band)
  (saved : list string) : Run :=
  match keys with
  | [] => (saved, None)
  | band :: keys' =>
      match body band with
      | Ok name => for_bands body keys' (saved ++ [name])
      | Raise e => (saved, Some e)
      end
  end.

Definition and_then (r : Run) (next : list string -> Run) : Run :=
  match snd r with
  | None => next (fst r)
  | Some _ => r
  end.

(** The body of the first loop: the two counts and the median it prints. *)
Definition baseline (data : Band -> DataFrame) (band : Band)
  : result (nat * nat * option Q) :=
  m <- median_aper4 (data band) ;;
  Ok (row_count (data band), bad_count (data band), m).

Fixpoint baseline_loop (data : Band -> DataFrame) (keys : list Band)
  : result (list (nat * nat * option Q)) :=
  match keys with
  | [] => Ok []
  | band :: keys' =>
      line <- baseline data band ;;
      rest <- baseline_loop data keys' ;;
      Ok (line :: rest)
  end.

(** The bodies of the four plotting loops, up to their [plt.savefig]: a
    time-series body prints the percentage first, a distribution body draws
    the histogram, calls [make_kde] and takes the median first. *)
Definition timeseries_gAperture `{GPhoton} (data : Band -> DataFrame)
  (band : Band) : result string :=
  _ <- report_gAperture band (data band) nsigma ;;
  savefig_name band TimeSeries Processed.

Definition distribution_gAperture `{GPhoton} `{Sklearn}
  (data : Band -> DataFrame) (band : Band) : result string :=
  _ <- hist_gAperture band (data band) ;;
  _ <- kde_gAperture band (data band) ;;
  _ <- median_gAperture band (data band) ;;
  savefig_name band Distribution Processed.

Definition timeseries_MCAT `{GPhoton} (data : Band -> DataFrame)
  (band : Band) : result string :=
  _ <- report_MCAT band (data band) nsigma ;;
  savefig_name band TimeSeries Catalog.

Definition distribution_MCAT `{GPhoton} `{Sklearn}
  (data : Band -> DataFrame) (band : Band) : result string :=
  _ <- hist_MCAT band (data band) ;;
  _ <- kde_MCAT band (data band) ;;
  _ <- median_MCAT band (data band) ;;
  savefig_name band Distribution Catalog.

(** The [savefig] calls of one run over the tables [data], [keys] being
    [data.keys()]: the first loop, then the four plotting loops one after
    the other. *)
Definition savefig_calls `{GPhoton} `{Sklearn} (data : Band -> DataFrame)
  (keys : list Band) : Run :=
  match baseline_loop data keys with
  | Raise e => ([], Some e)
  | Ok _ =>
      and_then (for_bands (timeseries_gAperture data) keys []) (fun saved1 =>
      and_then (for_bands (distribution_gAperture data) keys saved1)
        (fun saved2 =>
      and_then (for_bands (timeseries_MCAT data) keys saved2) (fun saved3 =>
      for_bands (distribution_MCAT data) keys saved3)))
  end.

(** The name a [savefig] call is given, and the names of a run in which no
    body raises. *)
Definition file_name (band : Band) (kind : PlotKind) (src : Source) : string :=
  match savefig_name band kind src with
  | Ok name => name
  | Raise _ => EmptyString
  end.

Definition complete_names (keys : list Band) : list string :=
  map (fun b => file_name b TimeSeries Processed) keys ++
  map (fun b => file_name b Distribution Processed) keys ++
  map (fun b => file_name b TimeSeries Catalog) keys ++
  map (fun b => file_name b Distribution Catalog) keys.

(** No block of the run raises for the band: the mask is not empty and both
    calls of [make_kde] return. *)
Definition band_completes `{GPhoton} `{Sklearn} (data : Band -> DataFrame)
  (band : Band) : Prop :=
  ix (data band) <> [] /\
  (exists r, kde_gAperture band (data band) = Ok r) /\
  (exists r, kde_MCAT band (data band) = Ok r).

(** What a run saves: always an initial part of the names of a complete
    run, all of them exactly when the run does not raise. *)
Definition saves_initial_part (run : Run) (keys : list Band) : Prop :=
  exists missing,
    complete_names keys = fst run ++ missing /\
    (snd run = None <-> missing = []).

(** [m] is the median of the non-empty array [a]: the mean of the lower and
    the upper middle element of [a] put in increasing order (one and the
    same element when their number is odd). *)
Definition is_median (a : list Q) (m : Q) : Prop :=
  a <> [] /\
  exists s,
    Permutation a s /\ StronglySorted Qle s /\
    m == (nth ((length a - 1) / 2) s 0 + nth (length a / 2) s 0) / 2.

(** Two tables used to run the script: one whose only row is flagged, and
    three copies of the ten-row table, which have 24 valid rows. *)
Definition flagged_table : DataFrame := [mkRow 100 4 (157 # 10) (156 # 10)].

Definition table30 : DataFrame := Demo.table10 ++ Demo.table10 ++ Demo.table10.

(** Loops run one after the other, each from the files saved so far. *)
Fixpoint run_loops (loops : list (Band -> result string)) (keys : list Band)
  (saved : list string) : Run :=
  match loops with
  | [] => (saved, None)
  | body :: loops' =>
      and_then (for_bands body keys saved) (run_loops loops' keys)
  end.

(** * Properties *)

(** ** Boolean comparisons on [Q] *)

Lemma Qlt_bool_iff (x y : Q) : Qlt_bool x y = true <-> x < y.
Proof.
  unfold Qlt_bool. rewrite negb_true_iff.
  split.
  - intros Hb. apply Qnot_le_lt. intros Hle.
    apply Qle_bool_iff in Hle. congruence.
  - intros Hlt. destruct (Qle_bool y x) eqn:E; [|reflexivity].
    apply Qle_bool_iff in E. exfalso. exact (Qlt_not_le _ _ Hlt E).
Qed.

Lemma Qlt_bool_false_iff (x y : Q) : Qlt_bool x y = false <-> y <= x.
Proof.
  unfold Qlt_bool. rewrite negb_false_iff. apply Qle_bool_iff.
Qed.

Lemma Qle_bool_false_iff (x y : Q) : Qle_bool x y = false <-> y < x.
Proof.
  rewrite <- Qlt_bool_iff. unfold Qlt_bool.
  destruct (Qle_bool x y); simpl; intuition congruence.
Qed.

(** Turn the boolean comparisons among the hypotheses into inequalities. *)
Ltac Qbool_to_prop :=
  repeat match goal with
         | H : Qle_bool _ _ = true |- _ => apply Qle_bool_iff in H
         | H : Qle_bool _ _ = false |- _ => apply Qle_bool_false_iff in H
         | H : Qlt_bool _ _ = true |- _ => apply Qlt_bool_iff in H
         | H : Qlt_bool _ _ = false |- _ => apply Qlt_bool_false_iff in H
         end.

(** ** Masks, [np.where] and indexing *)

Lemma zip_with_map {A B C D : Type} (f : B -> C -> D) (g : A -> B) (h : A -> C)
  (l : list A) :
  zip_with f (map g l) (map h l) = map (fun x => f (g x) (h x)) l.
Proof.
  induction l as [|x l IH]; simpl; [reflexivity|]. now rewrite IH.
Qed.

Lemma valid_mask_rows (df : DataFrame) : valid_mask df = map valid df.
Proof.
  unfold valid_mask, column. rewrite !map_map.
  now rewrite (zip_with_map andb).
Qed.

Lemma where_from_In (m : list bool) :
  forall k i, In i (where_from k m) <->
              (k <= i)%nat /\ nth_error m (i - k) = Some true.
Proof.
  induction m as [|b m IH]; intros k i; simpl.
  - split; [tauto|]. intros [_ H]. now destruct (i - k)%nat.
  - assert (Hrest : In i (where_from (S k) m) <->
                    (k < i)%nat /\ nth_error (b :: m) (i - k) = Some true).
    { rewrite IH. split.
      - intros [Hle Hn]. split; [lia|].
        replace (i - k)%nat with (S (i - S k)) by lia. exact Hn.
      - intros [Hlt Hn]. split; [lia|].
        replace (i - k)%nat with (S (i - S k)) in Hn by lia. exact Hn. }
    destruct b; simpl; rewrite Hrest.
    + split.
      * intros [<- | [Hlt Hn]].
        -- split; [lia|]. now rewrite Nat.sub_diag.
        -- split; [lia|exact Hn].
      * intros [Hle Hn]. destruct (Nat.eq_dec k i) as [->|Hne]; [now left|].
        right. split; [lia|exact Hn].
    + split.
      * intros [Hlt Hn]. split; [lia|exact Hn].
      * intros [Hle Hn]. destruct (Nat.eq_dec k i) as [->|Hne].
        -- rewrite Nat.sub_diag in Hn. discriminate.
        -- split; [lia|exact Hn].
Qed.

Lemma where_from_sorted (m : list bool) :
  forall k, StronglySorted lt (where_from k m).
Proof.
  induction m as [|b m IH]; intros k; simpl; [constructor|].
  destruct b; [|apply IH].
  constructor; [apply IH|].
  apply Forall_forall. intros i Hi. apply where_from_In in Hi. lia.
Qed.

Lemma where_from_length {A : Type} (p : A -> bool) (l : list A) :
  forall k, length (where_from k (map p l)) = length (filter p l).
Proof.
  induction l as [|x l IH]; intros k; simpl; [reflexivity|].
  destruct (p x); simpl; now rewrite IH.
Qed.

Lemma getitems_where_from {A B : Type} (f : A -> B) (p : A -> bool)
  (l : list A) :
  forall pre,
    getitems (map f (pre ++ l)) (where_from (length pre) (map p l))
    = Ok (map f (filter p l)).
Proof.
  induction l as [|x l IH]; intros pre; simpl; [reflexivity|].
  assert (Hstep : getitems (map f (pre ++ x :: l))
                    (where_from (S (length pre)) (map p l))
                  = Ok (map f (filter p l))).
  { specialize (IH (pre ++ [x])).
    rewrite <- app_assoc, length_app in IH. simpl in IH.
    now rewrite Nat.add_1_r in IH. }
  destruct (p x); simpl; [|exact Hstep].
  rewrite Hstep.
  rewrite nth_error_map, nth_error_app2 by lia.
  now rewrite Nat.sub_diag.
Qed.

(** Indexing a column with [ix] never raises: it keeps the valid rows. *)
Lemma getitems_ix {A : Type} (f : Row -> A) (df : DataFrame) :
  getitems (column f df) (ix df) = Ok (map f (filter valid df)).
Proof.
  unfold ix, np_where, column. rewrite valid_mask_rows.
  exact (getitems_where_from f valid df []).
Qed.

Lemma ix_length (df : DataFrame) : length (ix df) = length (filter valid df).
Proof.
  unfold ix, np_where. rewrite valid_mask_rows. apply where_from_length.
Qed.

Lemma valid_iff (r : Row) : valid r = true <-> flags r = 0%Z /\ 0 < aper4 r.
Proof.
  unfold valid. rewrite andb_true_iff, Z.eqb_eq, Qlt_bool_iff. tauto.
Qed.

Lemma ix_In (df : DataFrame) (i : nat) :
  In i (ix df) <-> exists r, nth_error df i = Some r /\ valid r = true.
Proof.
  unfold ix, np_where. rewrite valid_mask_rows, where_from_In.
  rewrite Nat.sub_0_r, nth_error_map.
  destruct (nth_error df i) as [r|]; simpl; split.
  - intros [_ Hv]. exists r. split; [reflexivity|congruence].
  - intros [r' [Hr Hv]]. split; [lia|congruence].
  - intros [_ Hv]. discriminate.
  - intros [r' [Hr _]]. discriminate.
Qed.

Lemma ix_nil_iff (df : DataFrame) :
  ix df = [] <-> forall r, In r df -> valid r = false.
Proof.
  rewrite <- length_zero_iff_nil, ix_length.
  induction df as [|r df IH]; simpl.
  - split; [intros _ r []|reflexivity].
  - destruct (valid r) eqn:E; simpl.
    + split; [discriminate|]. intros H. specialize (H r (or_introl eq_refl)).
      congruence.
    + rewrite IH. split.
      * intros H r' [<-|Hin]; [exact E|now apply H].
      * intros H r' Hin. apply H. now right.
Qed.

(** C4.  The validity mask selects exactly the rows whose flag is 0 and
    whose [aper4] is strictly positive: an index belongs to [ix] iff the row
    at that index passes both tests; [ix] is strictly increasing, so no row is
    selected twice; it has as many entries as there are such rows; it depends
    on no column but [flags] and [aper4].  In a 10-row table with 8 such
    rows it selects 8 rows. *)
Theorem validity_mask_selects (df : DataFrame) :
  (forall i, In i (ix df) <->
             exists r, nth_error df i = Some r /\
                       flags r = 0%Z /\ 0 < aper4 r) /\
  StronglySorted lt (ix df) /\
  length (ix df) = length (filter valid df) /\
  (forall df', column flags df' = column flags df ->
               column aper4 df' = column aper4 df -> ix df' = ix df) /\
  (length df = 10%nat -> length (filter valid df) = 8%nat ->
   length (ix df) = 8%nat).
Proof.
  split; [|split; [|split; [|split]]].
  - intros i. rewrite ix_In. split; intros [r [Hr Hv]]; exists r;
      (split; [exact Hr|]); now apply valid_iff.
  - apply where_from_sorted.
  - apply ix_length.
  - intros df' Hf Ha. unfold ix, valid_mask. now rewrite Hf, Ha.
  - intros _ H8. now rewrite ix_length.
Qed.

(** The scenario on a concrete table: rows 2 and 5 are left out, whatever
    the magnitudes of the other rows are. *)
Example validity_mask_table10 :
  length Demo.table10 = 10%nat /\ ix Demo.table10 = [0; 1; 3; 4; 6; 7; 8; 9]%nat.
Proof. split; reflexivity. Qed.

(** ** The containment count *)

Lemma filter_filter_length {A : Type} (p q : A -> bool) (l : list A) :
  length (filter q (filter p l)) = length (filter (fun x => p x && q x) l).
Proof.
  induction l as [|x l IH]; simpl; [reflexivity|].
  destruct (p x); simpl; [|exact IH].
  destruct (q x); simpl; now rewrite IH.
Qed.

Lemma filter_length_le {A : Type} (p q : A -> bool) (l : list A) :
  (forall x, In x l -> p x = true -> q x = true) ->
  (length (filter p l) <= length (filter q l))%nat.
Proof.
  induction l as [|x l IH]; intros Himp; simpl; [lia|].
  assert (Hl : (length (filter p l) <= length (filter q l))%nat).
  { apply IH. intros y Hy. apply Himp. now right. }
  destruct (p x) eqn:Ep.
  - rewrite (Himp x (or_introl eq_refl) Ep). simpl. lia.
  - destruct (q x); simpl; lia.
Qed.

Lemma count_within_rows `{GPhoton} (f : Row -> Q) (apc : Q) (band : Band)
  (df : DataFrame) (sigma : Q) :
  count_within (column f df) apc band df sigma
  = Ok (length (filter
                  (fun r => valid r && within band sigma (f r - apc) (exptime r))
                  df)).
Proof.
  unfold count_within. rewrite !getitems_ix. simpl.
  rewrite !map_map.
  rewrite (zip_with_map (fun v bi => Qle_bool bi v)).
  rewrite (zip_with_map (fun v ai => Qle_bool v ai)).
  rewrite (zip_with_map andb).
  unfold np_where. rewrite where_from_length, filter_filter_length.
  reflexivity.
Qed.

Lemma cnt_gAperture_rows `{GPhoton} (band : Band) (df : DataFrame) (sigma : Q) :
  cnt_gAperture band df sigma
  = Ok (length (filter (counted_gAperture band sigma) df)).
Proof. apply count_within_rows. Qed.

Lemma cnt_MCAT_rows `{GPhoton} (band : Band) (df : DataFrame) (sigma : Q) :
  cnt_MCAT band df sigma = Ok (length (filter (counted_MCAT band sigma) df)).
Proof. apply count_within_rows. Qed.

Lemma within_iff `{GPhoton} (band : Band) (sigma m t : Q) :
  within band sigma m t = true <->
  snd (data_errors (refmag band) band t sigma) <= m /\
  m <= fst (data_errors (refmag band) band t sigma).
Proof.
  unfold within. now rewrite andb_true_iff, !Qle_bool_iff.
Qed.

Lemma counted_gAperture_iff `{GPhoton} (band : Band) (sigma : Q) (r : Row) :
  counted_gAperture band sigma r = true <->
  (flags r = 0%Z /\ 0 < aper4 r) /\
  snd (data_errors (refmag band) band (exptime r) sigma)
    <= mag_mcatbgsub r - apcorrect1 radius band /\
  mag_mcatbgsub r - apcorrect1 radius band
    <= fst (data_errors (refmag band) band (exptime r) sigma).
Proof.
  unfold counted_gAperture.
  now rewrite andb_true_iff, valid_iff, within_iff.
Qed.

Lemma counted_MCAT_iff `{GPhoton} (band : Band) (sigma : Q) (r : Row) :
  counted_MCAT band sigma r = true <->
  (flags r = 0%Z /\ 0 < aper4 r) /\
  snd (data_errors (refmag band) band (exptime r) sigma)
    <= aper4 r - apcorrect1 (aper2deg 4) band /\
  aper4 r - apcorrect1 (aper2deg 4) band
    <= fst (data_errors (refmag band) band (exptime r) sigma).
Proof.
  unfold counted_MCAT.
  now rewrite andb_true_iff, valid_iff, within_iff.
Qed.

Lemma report_gAperture_eq `{GPhoton} (band : Band) (df : DataFrame) (sigma : Q) :
  report_gAperture band df sigma
  = p <- percent (length (filter (counted_gAperture band sigma) df))
                 (length (filter valid df)) ;;
    Ok (length (filter (counted_gAperture band sigma) df),
        length (filter valid df), p).
Proof.
  unfold report_gAperture.
  now rewrite cnt_gAperture_rows, ix_length.
Qed.

Lemma report_MCAT_eq `{GPhoton} (band : Band) (df : DataFrame) (sigma : Q) :
  report_MCAT band df sigma
  = p <- percent (length (filter (counted_MCAT band sigma) df))
                 (length (filter valid df)) ;;
    Ok (length (filter (counted_MCAT band sigma) df),
        length (filter valid df), p).
Proof.
  unfold report_MCAT.
  now rewrite cnt_MCAT_rows, ix_length.
Qed.

(** C2.  In both time-series blocks the count is the number of rows that the
    validity mask selects and whose aperture-corrected magnitude lies in the
    closed interval from the upper bound (second component of
    [data_errors]) to the lower bound (first component), both taken at the
    exposure time of that very row; the total is the number of rows the mask
    selects. *)
Theorem containment_count_per_observation `{GPhoton} (band : Band)
  (df : DataFrame) :
  cnt_gAperture band df nsigma
    = Ok (length (filter (counted_gAperture band nsigma) df)) /\
  cnt_MCAT band df nsigma
    = Ok (length (filter (counted_MCAT band nsigma) df)) /\
  (forall r, counted_gAperture band nsigma r = true <->
     (flags r = 0%Z /\ 0 < aper4 r) /\
     snd (data_errors (refmag band) band (exptime r) nsigma)
       <= mag_mcatbgsub r - apcorrect1 radius band /\
     mag_mcatbgsub r - apcorrect1 radius band
       <= fst (data_errors (refmag band) band (exptime r) nsigma)) /\
  (forall r, counted_MCAT band nsigma r = true <->
     (flags r = 0%Z /\ 0 < aper4 r) /\
     snd (data_errors (refmag band) band (exptime r) nsigma)
       <= aper4 r - apcorrect1 (aper2deg 4) band /\
     aper4 r - apcorrect1 (aper2deg 4) band
       <= fst (data_errors (refmag band) band (exptime r) nsigma)) /\
  length (ix df) = length (filter valid df) /\
  (forall c m p, report_gAperture band df nsigma = Ok (c, m, p) ->
     c = length (filter (counted_gAperture band nsigma) df) /\
     m = length (filter valid df)) /\
  (forall c m p, report_MCAT band df nsigma = Ok (c, m, p) ->
     c = length (filter (counted_MCAT band nsigma) df) /\
     m = length (filter valid df)).
Proof.
  split; [apply cnt_gAperture_rows|].
  split; [apply cnt_MCAT_rows|].
  split; [intros r; apply counted_gAperture_iff|].
  split; [intros r; apply counted_MCAT_iff|].
  split; [apply ix_length|].
  split; intros c m p Hrep.
  - rewrite report_gAperture_eq in Hrep.
    destruct (percent _ _) as [q|e]; simpl in Hrep; [|discriminate].
    split; congruence.
  - rewrite report_MCAT_eq in Hrep.
    destruct (percent _ _) as [q|e]; simpl in Hrep; [|discriminate].
    split; congruence.
Qed.

(** ** The containment percentage *)

Lemma percent_pos (cnt total : nat) :
  (0 < total)%nat ->
  percent cnt total = Ok (100 * Z.of_nat cnt / Z.of_nat total)%Z.
Proof.
  intros Hpos. unfold percent, py_div.
  destruct (Z.eqb_spec (Z.of_nat total) 0) as [E|_]; [lia|reflexivity].
Qed.

Lemma percent_zero (cnt : nat) : percent cnt 0 = Raise ZeroDivisionError.
Proof. reflexivity. Qed.

Lemma percent_raises_iff (cnt total : nat) (e : exn) :
  percent cnt total = Raise e <-> total = 0%nat /\ e = ZeroDivisionError.
Proof.
  destruct total as [|n].
  - rewrite percent_zero. split; [intros H; split; congruence|].
    intros [_ ->]. reflexivity.
  - rewrite percent_pos by lia. split; [discriminate|]. intros [H _]. lia.
Qed.

(** C3.  For every count and every positive total the percentage is the
    integer [p] with [p <= 100*count/total < p + 1] in the rationals: the
    floor of the exact quotient. *)
Theorem percent_is_floor (cnt total : nat) :
  (0 < total)%nat ->
  exists p : Z,
    percent cnt total = Ok p /\
    p = Qfloor (100 * inject_Z (Z.of_nat cnt) / inject_Z (Z.of_nat total)) /\
    inject_Z p <= 100 * inject_Z (Z.of_nat cnt) / inject_Z (Z.of_nat total) /\
    100 * inject_Z (Z.of_nat cnt) / inject_Z (Z.of_nat total) < inject_Z p + 1.
Proof.
  intros Hpos.
  exists (100 * Z.of_nat cnt / Z.of_nat total)%Z.
  assert (Hfloor : (100 * Z.of_nat cnt / Z.of_nat total)%Z
                   = Qfloor (100 * inject_Z (Z.of_nat cnt)
                             / inject_Z (Z.of_nat total))).
  { rewrite Zdiv_Qdiv. apply Qfloor_comp.
    rewrite inject_Z_mult. reflexivity. }
  split; [now apply percent_pos|].
  split; [exact Hfloor|].
  rewrite Hfloor. split.
  - apply Qfloor_le.
  - eapply Qlt_le_trans; [apply Qlt_floor|].
    rewrite inject_Z_plus. apply Qle_refl.
Qed.

Lemma percent_is_floor_witness :
  (0 < 8)%nat /\
  exists p : Z,
    percent 3 8 = Ok p /\
    p = Qfloor (100 * inject_Z (Z.of_nat 3) / inject_Z (Z.of_nat 8)) /\
    inject_Z p <= 100 * inject_Z (Z.of_nat 3) / inject_Z (Z.of_nat 8) /\
    100 * inject_Z (Z.of_nat 3) / inject_Z (Z.of_nat 8) < inject_Z p + 1.
Proof.
  split; [lia|]. apply (percent_is_floor 3 8). lia.
Defined.

(** Three of eight observations: 37.5 is reported as 37. *)
Example percent_3_of_8 : percent 3 8 = Ok 37%Z.
Proof. reflexivity. Qed.

(** C9.  The percentage divides by the number of selected rows without a
    guard: each time-series block raises ZeroDivisionError exactly when the
    mask is empty (no row has flag 0 and a positive [aper4]); it raises
    nothing else, and with a non-empty mask it reports a count, the total and
    a percentage. *)
Theorem percent_division_by_zero `{GPhoton} (band : Band) (df : DataFrame)
  (sigma : Q) :
  (report_gAperture band df sigma = Raise ZeroDivisionError <-> ix df = []) /\
  (report_MCAT band df sigma = Raise ZeroDivisionError <-> ix df = []) /\
  (ix df = [] <-> forall r, In r df -> valid r = false) /\
  (forall e, report_gAperture band df sigma = Raise e ->
             e = ZeroDivisionError) /\
  (forall e, report_MCAT band df sigma = Raise e -> e = ZeroDivisionError) /\
  (ix df <> [] ->
   (exists c p, report_gAperture band df sigma = Ok (c, length (ix df), p)) /\
   (exists c p, report_MCAT band df sigma = Ok (c, length (ix df), p))).
Proof.
  assert (Hnil : ix df = [] <-> length (filter valid df) = 0%nat).
  { now rewrite <- length_zero_iff_nil, ix_length. }
  rewrite report_gAperture_eq, report_MCAT_eq.
  destruct (length (filter valid df)) as [|n] eqn:En.
  - rewrite !percent_zero. simpl.
    split; [tauto|]. split; [tauto|]. split; [apply ix_nil_iff|].
    split; [intros e He; congruence|].
    split; [intros e He; congruence|].
    intros Hne. exfalso. apply Hne. now apply Hnil.
  - rewrite !percent_pos by lia. simpl.
    assert (Hne : ix df <> []) by (rewrite Hnil; lia).
    split; [split; [discriminate|tauto]|].
    split; [split; [discriminate|tauto]|].
    split; [apply ix_nil_iff|].
    split; [intros e He; discriminate|].
    split; [intros e He; discriminate|].
    intros _. rewrite ix_length, En. split; eauto.
Qed.

(** ** Monotonicity in sigma *)

Lemma Zdiv_percent_le (c1 c2 t : nat) :
  (c1 <= c2)%nat -> (c2 <= t)%nat -> (0 < t)%nat ->
  (100 * Z.of_nat c1 / Z.of_nat t <= 100 * Z.of_nat c2 / Z.of_nat t)%Z /\
  (100 * Z.of_nat c2 / Z.of_nat t <= 100)%Z.
Proof.
  intros H12 H2t Ht. split.
  - apply Z.div_le_mono; lia.
  - apply Z.div_le_upper_bound; lia.
Qed.

Lemma within_widens `{GPhoton} (band : Band) (s1 s2 m t : Q) :
  fst (data_errors (refmag band) band t s1)
    <= fst (data_errors (refmag band) band t s2) ->
  snd (data_errors (refmag band) band t s2)
    <= snd (data_errors (refmag band) band t s1) ->
  within band s1 m t = true -> within band s2 m t = true.
Proof.
  rewrite !within_iff. intros Hlo Hup [H1 H2]. split.
  - now apply Qle_trans with (2 := H1).
  - now apply Qle_trans with (1 := H2).
Qed.

Lemma count_within_monotone `{GPhoton} (f : Row -> Q) (apc : Q) (band : Band)
  (df : DataFrame) (s1 s2 : Q) :
  envelope_contains band df s1 s2 ->
  count_monotone (count_within (column f df) apc band df)
    (length (filter valid df)) s1 s2.
Proof.
  intros Henv.
  set (P := fun s r => valid r && within band s (f r - apc) (exptime r)).
  assert (Hvalid : forall s,
             (length (filter (P s) df) <= length (filter valid df))%nat).
  { intros s. apply filter_length_le. intros r _ Hr.
    now apply andb_true_iff in Hr. }
  assert (H12 : (length (filter (P s1) df) <= length (filter (P s2) df))%nat).
  { apply filter_length_le. intros r Hin Hr. unfold P in *.
    apply andb_true_iff in Hr. destruct Hr as [Hv Hw].
    rewrite Hv. simpl. destruct (Henv r Hin) as [Hlo Hup].
    exact (within_widens band s1 s2 _ _ Hlo Hup Hw). }
  exists (length (filter (P s1) df)), (length (filter (P s2) df)).
  rewrite !count_within_rows.
  split; [reflexivity|]. split; [reflexivity|].
  split; [apply Hvalid|]. split; [apply Hvalid|]. split; [exact H12|].
  intros Hpos. rewrite !percent_pos by exact Hpos.
  do 2 eexists. split; [reflexivity|]. split; [reflexivity|].
  apply Zdiv_percent_le; [exact H12|apply Hvalid|exact Hpos].
Qed.

(** C7.  The count never exceeds the total, and for [s1 <= s2], when the
    envelope at [s2] contains the envelope at [s1] at every exposure time of
    the table, neither the count nor the percentage decreases from [s1] to
    [s2]. *)
Theorem containment_monotone_in_sigma `{GPhoton} (band : Band)
  (df : DataFrame) (s1 s2 : Q) :
  s1 <= s2 ->
  envelope_contains band df s1 s2 ->
  count_monotone (cnt_gAperture band df) (length (ix df)) s1 s2 /\
  count_monotone (cnt_MCAT band df) (length (ix df)) s1 s2.
Proof.
  intros _ Henv. rewrite ix_length.
  split; unfold cnt_gAperture, cnt_MCAT;
    now apply count_within_monotone.
Qed.

Lemma demo_envelope_contains :
  @envelope_contains Demo.gphoton FUV Demo.table10 1 3.
Proof.
  intros r Hin. simpl in Hin.
  repeat (destruct Hin as [<-|Hin]; [vm_compute; split; discriminate|]).
  contradiction.
Qed.

Lemma containment_monotone_in_sigma_witness :
  1 <= 3 /\
  @envelope_contains Demo.gphoton FUV Demo.table10 1 3 /\
  count_monotone (@cnt_gAperture Demo.gphoton FUV Demo.table10)
    (length (ix Demo.table10)) 1 3 /\
  count_monotone (@cnt_MCAT Demo.gphoton FUV Demo.table10)
    (length (ix Demo.table10)) 1 3.
Proof.
  assert (H13 : 1 <= 3) by (unfold Qle; simpl; lia).
  split; [exact H13|]. split; [exact demo_envelope_contains|].
  exact (@containment_monotone_in_sigma Demo.gphoton FUV Demo.table10 1 3
           H13 demo_envelope_contains).
Defined.

(** On the ten-row table: 2 of 8 within one sigma, 3 of 8 within three. *)
Example demo_counts :
  @cnt_gAperture Demo.gphoton FUV Demo.table10 1 = Ok 2%nat /\
  @cnt_gAperture Demo.gphoton FUV Demo.table10 3 = Ok 3%nat /\
  @report_gAperture Demo.gphoton FUV Demo.table10 nsigma
    = Ok (3%nat, 8%nat, 37%Z).
Proof. repeat split; vm_compute; reflexivity. Qed.

(** ** [np.linspace] *)

Lemma linspace_length (a b : Q) (n : nat) : length (linspace a b n) = n.
Proof.
  destruct n as [|[|m]]; [reflexivity|reflexivity|].
  unfold linspace. rewrite length_app, length_map, length_seq. simpl. lia.
Qed.

Lemma linspace_nth (a b : Q) (n i : nat) :
  (0 < n)%nat -> (i <= n)%nat ->
  nth i (linspace a b (S n)) 0 = grid_point a b n i.
Proof.
  intros Hn Hi. destruct n as [|m]; [lia|].
  unfold linspace, grid_point.
  set (g := fun j : nat =>
              a + inject_Z (Z.of_nat j) * ((b - a) / inject_Z (Z.of_nat (S m)))).
  destruct (Nat.eqb_spec i (S m)) as [->|Hne].
  - rewrite app_nth2; rewrite length_map, length_seq; [|lia].
    now rewrite Nat.sub_diag.
  - rewrite app_nth1 by (rewrite length_map, length_seq; lia).
    rewrite (nth_indep _ 0 (g 0%nat)) by (rewrite length_map, length_seq; lia).
    rewrite (map_nth g), seq_nth by lia. reflexivity.
Qed.

Lemma inject_Z_of_nat_pos (n : nat) : (0 < n)%nat -> 0 < inject_Z (Z.of_nat n).
Proof.
  intros Hn. change 0 with (inject_Z 0). rewrite <- Zlt_Qlt. lia.
Qed.

Lemma inject_Z_of_nat_S (n : nat) :
  inject_Z (Z.of_nat (S n)) == inject_Z (Z.of_nat n) + 1.
Proof.
  rewrite Nat2Z.inj_succ. unfold Z.succ. now rewrite inject_Z_plus.
Qed.

Lemma step_nonneg (a b : Q) (n : nat) :
  (0 < n)%nat -> a <= b -> 0 <= (b - a) / inject_Z (Z.of_nat n).
Proof.
  intros Hn Hab. apply Qle_shift_div_l.
  - now apply inject_Z_of_nat_pos.
  - lra.
Qed.

Lemma step_times (a b : Q) (n : nat) :
  (0 < n)%nat ->
  inject_Z (Z.of_nat n) * ((b - a) / inject_Z (Z.of_nat n)) == b - a.
Proof.
  intros Hn. apply Qmult_div_r.
  intros E. pose proof (inject_Z_of_nat_pos n Hn) as Hpos.
  rewrite E in Hpos. exact (Qlt_irrefl _ Hpos).
Qed.

(** Below the last point the grid is [a + i * step]. *)
Lemma grid_point_below (a b : Q) (n i : nat) :
  (i < n)%nat ->
  grid_point a b n i
  = a + inject_Z (Z.of_nat i) * ((b - a) / inject_Z (Z.of_nat n)).
Proof.
  intros Hi. unfold grid_point.
  destruct (Nat.eqb_spec i n); [lia|reflexivity].
Qed.

Lemma grid_point_last (a b : Q) (n : nat) : grid_point a b n n = b.
Proof. unfold grid_point. now rewrite Nat.eqb_refl. Qed.

Lemma grid_point_first (a b : Q) (n : nat) :
  (0 < n)%nat -> grid_point a b n 0 == a.
Proof.
  intros Hn. rewrite grid_point_below by lia. simpl.
  change (inject_Z 0) with 0. lra.
Qed.

Lemma grid_point_mono (a b : Q) (n i : nat) :
  a <= b -> (i < n)%nat -> grid_point a b n i <= grid_point a b n (S i).
Proof.
  intros Hab Hi.
  pose proof (step_nonneg a b n ltac:(lia) Hab) as Hstep.
  pose proof (step_times a b n ltac:(lia)) as Htimes.
  rewrite (grid_point_below a b n i Hi).
  set (step := (b - a) / inject_Z (Z.of_nat n)) in *.
  destruct (Nat.eq_dec (S i) n) as [E|Hne].
  - rewrite E, grid_point_last.
    rewrite <- E, inject_Z_of_nat_S in Htimes. lra.
  - rewrite grid_point_below by lia. fold step.
    rewrite inject_Z_of_nat_S. lra.
Qed.

Lemma grid_point_bounds (a b : Q) (n i : nat) :
  a <= b -> (0 < n)%nat -> (i <= n)%nat ->
  a <= grid_point a b n i /\ grid_point a b n i <= b.
Proof.
  intros Hab Hn Hi.
  pose proof (step_nonneg a b n Hn Hab) as Hstep.
  pose proof (step_times a b n Hn) as Htimes.
  destruct (Nat.eq_dec i n) as [->|Hne].
  - rewrite grid_point_last. split; [exact Hab|apply Qle_refl].
  - rewrite grid_point_below by lia.
    set (step := (b - a) / inject_Z (Z.of_nat n)) in *.
    assert (H0 : 0 <= inject_Z (Z.of_nat i)).
    { change 0 with (inject_Z 0). rewrite <- Zle_Qle. lia. }
    assert (Hin : inject_Z (Z.of_nat i) <= inject_Z (Z.of_nat n)).
    { rewrite <- Zle_Qle. lia. }
    split.
    + assert (0 <= inject_Z (Z.of_nat i) * step) by now apply Qmult_le_0_compat.
      lra.
    + assert (inject_Z (Z.of_nat i) * step <= inject_Z (Z.of_nat n) * step).
      { apply Qmult_le_compat_r; assumption. }
      lra.
Qed.

(** ** [np.histogram] *)

(** Counting the pairs that satisfy [p] by rows or by columns. *)
Lemma sum_lengths_swap {A B : Type} (p : A -> B -> bool) (la : list A)
  (lb : list B) :
  list_sum (map (fun i => length (filter (p i) lb)) la)
  = list_sum (map (fun v => length (filter (fun i => p i v) la)) lb).
Proof.
  induction lb as [|v lb IH]; simpl.
  - induction la as [|i la IHa]; simpl; [reflexivity|exact IHa].
  - rewrite <- IH. clear IH.
    induction la as [|i la IHa]; simpl; [reflexivity|].
    destruct (p i v); simpl; rewrite IHa; lia.
Qed.

Section Bins.

Variables (lo hi : Q) (bins : nat).
Hypothesis bins_pos : (0 < bins)%nat.
Hypothesis lo_lt_hi : lo < hi.

Let edges := linspace lo hi (S bins).
Let e (i : nat) := grid_point lo hi bins i.
Let holding := bins_holding (lo, hi) bins.

Lemma in_bin_edges (i : nat) (v : Q) :
  (i < bins)%nat ->
  in_bin edges bins i v
  = Qle_bool (e i) v &&
    (if Nat.eqb (S i) bins then Qle_bool v (e (S i)) else Qlt_bool v (e (S i))).
Proof.
  intros Hi. unfold in_bin, edges, e.
  now rewrite !linspace_nth by lia.
Qed.

Lemma bins_holding_S (k : nat) (v : Q) :
  holding (S k) v = (holding k v + if in_bin edges bins k v then 1 else 0)%nat.
Proof.
  unfold holding, bins_holding. simpl fst. simpl snd. fold edges.
  rewrite seq_S, filter_app, length_app. simpl.
  now destruct (in_bin edges bins k v).
Qed.

Lemma e_mono (i : nat) : (i < bins)%nat -> e i <= e (S i).
Proof. intros Hi. apply grid_point_mono; [now apply Qlt_le_weak|exact Hi]. Qed.

Lemma e_from_first (k : nat) : (k <= bins)%nat -> e 0 <= e k.
Proof.
  induction k as [|k IH]; intros Hk; [apply Qle_refl|].
  apply Qle_trans with (e k); [apply IH; lia|apply e_mono; lia].
Qed.

(** The half-open bins below [k] partition [[e 0, e k)]. *)
Lemma bins_holding_below (k : nat) (v : Q) :
  (k < bins)%nat ->
  holding k v = if Qle_bool (e 0) v && Qlt_bool v (e k) then 1%nat else 0%nat.
Proof.
  induction k as [|k IH]; intros Hk.
  - unfold holding, bins_holding. simpl.
    destruct (Qle_bool (e 0) v) eqn:E1; simpl; [|reflexivity].
    destruct (Qlt_bool v (e 0)) eqn:E2; [|reflexivity].
    apply Qle_bool_iff in E1. apply Qlt_bool_iff in E2.
    exfalso. exact (Qlt_not_le _ _ E2 E1).
  - rewrite bins_holding_S, IH, in_bin_edges by lia.
    destruct (Nat.eqb_spec (S k) bins) as [E|_]; [lia|].
    pose proof (e_from_first k ltac:(lia)) as H0k.
    pose proof (e_mono k ltac:(lia)) as Hk1.
    destruct (Qle_bool (e 0) v) eqn:E0;
      destruct (Qlt_bool v (e k)) eqn:Ek;
      destruct (Qle_bool (e k) v) eqn:Ek';
      destruct (Qlt_bool v (e (S k))) eqn:ES; simpl; try reflexivity;
      exfalso; Qbool_to_prop; lra.
Qed.

Lemma bins_holding_last (k : nat) (v : Q) :
  bins = S k ->
  holding (S k) v = if in_range (lo, hi) v then 1%nat else 0%nat.
Proof.
  intros Eb.
  assert (Hk : (k < bins)%nat) by lia.
  rewrite bins_holding_S, bins_holding_below, in_bin_edges by exact Hk.
  rewrite <- Eb, Nat.eqb_refl.
  pose proof (e_from_first k ltac:(lia)) as H0k.
  pose proof (e_mono k Hk) as Hk1.
  assert (Hfirst : e 0 == lo) by (apply grid_point_first; lia).
  assert (Hlast : e bins = hi) by apply grid_point_last.
  rewrite <- Eb in Hk1. rewrite Hlast in *.
  unfold in_range. simpl fst. simpl snd.
  rewrite (Qleb_comp _ _ Hfirst v v (Qeq_refl v)).
  destruct (Qle_bool lo v) eqn:E0;
    destruct (Qlt_bool v (e k)) eqn:Ek;
    destruct (Qle_bool (e k) v) eqn:Ek';
    destruct (Qle_bool v hi) eqn:ES; simpl; try reflexivity;
    exfalso; Qbool_to_prop; lra.
Qed.

(** Every value of the closed range is in exactly one bin, every other value
    in none. *)
Lemma bins_holding_all (v : Q) :
  holding bins v = if in_range (lo, hi) v then 1%nat else 0%nat.
Proof.
  assert (Hex : exists k, bins = S k) by (exists (pred bins); lia).
  destruct Hex as [k Eb].
  pose proof (bins_holding_last k v Eb) as H.
  rewrite <- Eb in H. exact H.
Qed.

Lemma histogram_sum_by_value (a : list Q) (k : nat) :
  list_sum (map (fun i => length (filter (in_bin edges bins i) a)) (seq 0 k))
  = list_sum (map (holding k) a).
Proof.
  exact (sum_lengths_swap (in_bin edges bins) (seq 0 k) a).
Qed.

Lemma np_histogram_sum (a : list Q) :
  list_sum (np_histogram a bins (lo, hi))
  = length (filter (in_range (lo, hi)) a).
Proof.
  unfold np_histogram. simpl fst. simpl snd. fold edges.
  rewrite histogram_sum_by_value.
  induction a as [|v a IH]; simpl; [reflexivity|].
  rewrite IH, bins_holding_all.
  destruct (in_range (lo, hi) v); simpl; reflexivity.
Qed.

Lemma np_histogram_length (a : list Q) :
  length (np_histogram a bins (lo, hi)) = bins.
Proof. unfold np_histogram. now rewrite length_map, length_seq. Qed.

End Bins.

Lemma filter_map_length {A B : Type} (p : B -> bool) (g : A -> B) (l : list A) :
  length (filter p (map g l)) = length (filter (fun x => p (g x)) l).
Proof.
  induction l as [|x l IH]; simpl; [reflexivity|].
  destruct (p (g x)); simpl; now rewrite IH.
Qed.

Lemma magrange_gAperture_lt (band : Band) :
  fst (magrange_gAperture band) < snd (magrange_gAperture band).
Proof. destruct band; reflexivity. Qed.

Lemma magrange_MCAT_lt (band : Band) :
  fst (magrange_MCAT band) < snd (magrange_MCAT band).
Proof. destruct band; reflexivity. Qed.

(** The histogram of the valid rows of a table, for any magnitude column
    [f], correction [apc] and range. *)
Lemma hist_rows (f : Row -> Q) (apc : Q) (range : Q * Q) (df : DataFrame) :
  fst range < snd range ->
  exists counts,
    (s <- getitems (map (fun v => v - apc) (column f df)) (ix df) ;;
     Ok (np_histogram s bincnt range)) = Ok counts /\
    length counts = 50%nat /\
    list_sum counts
    = length (filter (fun r => valid r && in_range range (f r - apc)) df).
Proof.
  intros Hlt. destruct range as [lo hi]. simpl in Hlt.
  assert (Hpos : (0 < bincnt)%nat) by (unfold bincnt; lia).
  unfold column. rewrite map_map.
  change (map (fun r => f r - apc) df) with (column (fun r => f r - apc) df).
  rewrite getitems_ix. simpl bind.
  eexists. split; [reflexivity|]. split.
  - now rewrite np_histogram_length.
  - rewrite (np_histogram_sum lo hi bincnt Hpos Hlt).
    now rewrite filter_map_length, filter_filter_length.
Qed.

(** C8, amended.  The bin counts of each distribution histogram sum to the
    number of rows that the mask selects and whose corrected magnitude lies
    in the closed range of the histogram; there are 50 bins; a magnitude
    inside the range is counted in exactly one bin and a magnitude outside
    the range in none. *)
Theorem histogram_counts_sum_in_range `{GPhoton} (band : Band) (df : DataFrame) :
  (exists counts,
     hist_gAperture band df = Ok counts /\ length counts = 50%nat /\
     list_sum counts = length (filter (binned_gAperture band) df)) /\
  (exists counts,
     hist_MCAT band df = Ok counts /\ length counts = 50%nat /\
     list_sum counts = length (filter (binned_MCAT band) df)) /\
  (forall v, bins_holding (magrange_gAperture band) bincnt bincnt v
             = if in_range (magrange_gAperture band) v then 1%nat else 0%nat) /\
  (forall v, bins_holding (magrange_MCAT band) bincnt bincnt v
             = if in_range (magrange_MCAT band) v then 1%nat else 0%nat).
Proof.
  assert (Hpos : (0 < bincnt)%nat) by (unfold bincnt; lia).
  split; [|split; [|split]].
  - exact (hist_rows mag_mcatbgsub (apcorrect1 radius band)
             (magrange_gAperture band) df (magrange_gAperture_lt band)).
  - exact (hist_rows aper4 (apcorrect1 (aper2deg 4) band)
             (magrange_MCAT band) df (magrange_MCAT_lt band)).
  - intros v. pose proof (magrange_gAperture_lt band) as Hlt.
    destruct (magrange_gAperture band) as [lo hi].
    exact (bins_holding_all lo hi bincnt Hpos Hlt v).
  - intros v. pose proof (magrange_MCAT_lt band) as Hlt.
    destruct (magrange_MCAT band) as [lo hi].
    exact (bins_holding_all lo hi bincnt Hpos Hlt v).
Qed.

(** C8 as stated fails: row 6 of the ten-row table is selected by the mask
    but its corrected magnitude 17.0 lies outside the FUV range
    [15.4, 16.3], so the bins count 7 of the 8 selected rows. *)
Lemma histogram_drops_out_of_range :
  (counts <- @hist_gAperture Demo.gphoton FUV Demo.table10 ;;
   Ok (list_sum counts)) = Ok 7%nat /\
  length (ix Demo.table10) = 8%nat /\
  nth_error (ix Demo.table10) 4 = Some 6%nat /\
  option_map (fun r => mag_mcatbgsub r - @apcorrect1 Demo.gphoton radius FUV)
    (nth_error Demo.table10 6) = Some (170 # 10).
Proof. repeat split; vm_compute; reflexivity. Qed.

(** What [normed=1] draws integrates to one as soon as one sample is
    counted. *)
Lemma normed_scaled_sum (T w : Q) (counts : list nat) :
  ~ T == 0 -> ~ w == 0 ->
  Qsum (map (fun d => d * w)
          (map (fun c => inject_Z (Z.of_nat c) / (T * w)) counts))
  == inject_Z (Z.of_nat (list_sum counts)) / T.
Proof.
  intros HT Hw. induction counts as [|c counts IH]; simpl.
  - change (inject_Z 0) with 0. field. exact HT.
  - unfold Qsum in IH. rewrite IH.
    rewrite Nat2Z.inj_add, inject_Z_plus. field. split; assumption.
Qed.

Lemma normed_integrates_to_one (counts : list nat) (bins : nat) (range : Q * Q) :
  (0 < bins)%nat -> fst range < snd range -> (0 < list_sum counts)%nat ->
  Qsum (map (fun d => d * bin_width bins range) (normed counts bins range)) == 1.
Proof.
  intros Hbins Hrange Hsum. unfold normed.
  assert (HT : ~ inject_Z (Z.of_nat (list_sum counts)) == 0).
  { intros E. pose proof (inject_Z_of_nat_pos _ Hsum) as Hpos.
    rewrite E in Hpos. exact (Qlt_irrefl _ Hpos). }
  assert (Hw : ~ bin_width bins range == 0).
  { unfold bin_width. intros E.
    pose proof (step_times (fst range) (snd range) bins Hbins) as Ht.
    rewrite E in Ht. lra. }
  rewrite (normed_scaled_sum _ _ counts HT Hw). field. exact HT.
Qed.

(** ** Output file names *)

(** C5 as stated fails: the template of a distribution plot has no band
    field, so the two bands' distribution plots of one source are saved
    under one name. *)
Lemma distribution_name_ignores_band :
  FUV <> NUV /\
  savefig_name FUV Distribution Processed
    = savefig_name NUV Distribution Processed /\
  savefig_name FUV Distribution Processed = Ok "./LDS749B_90as_ABMag_dist.pdf" /\
  savefig_name FUV Distribution Catalog
    = savefig_name NUV Distribution Catalog.
Proof.
  split; [discriminate|]. repeat split; reflexivity.
Qed.

(** ** The search for the bandwidth *)

Lemma grid_scores_ok `{Sklearn} (est : KernelDensity) (data : list Q) (cv : nat)
  (grid : list Q) :
  forall scores,
    grid_scores est grid data cv = Ok scores ->
    map fst scores = grid /\
    Forall (fun hs => cross_val_score (set_bandwidth est (fst hs)) data cv
                      = Ok (snd hs)) scores.
Proof.
  induction grid as [|h grid IH]; intros scores Hs; simpl in Hs.
  - injection Hs as <-. split; [reflexivity|constructor].
  - destruct (cross_val_score (set_bandwidth est h) data cv) as [s|e] eqn:Es;
      simpl in Hs; [|discriminate].
    destruct (grid_scores est grid data cv) as [rest|e] eqn:Er;
      simpl in Hs; [|discriminate].
    injection Hs as <-. destruct (IH rest eq_refl) as [Hfst Hall].
    split; [simpl; now rewrite Hfst|].
    constructor; [exact Es|exact Hall].
Qed.

Lemma grid_scores_raise `{Sklearn} (est : KernelDensity) (data : list Q)
  (cv : nat) (grid : list Q) (e : exn) :
  grid_scores est grid data cv = Raise e ->
  exists h, In h grid /\
            cross_val_score (set_bandwidth est h) data cv = Raise e.
Proof.
  induction grid as [|h grid IH]; intros Hs; simpl in Hs; [discriminate|].
  destruct (cross_val_score (set_bandwidth est h) data cv) as [s|e'] eqn:Es;
    simpl in Hs.
  - destruct (grid_scores est grid data cv) as [rest|e'] eqn:Er;
      simpl in Hs; [discriminate|].
    injection Hs as ->. destruct (IH eq_refl) as [h' [Hin Hh']].
    exists h'. split; [now right|exact Hh'].
  - injection Hs as ->. exists h. split; [now left|exact Es].
Qed.

Lemma grid_scores_total `{Sklearn} (est : KernelDensity) (data : list Q)
  (cv : nat) (grid : list Q) :
  (forall h, In h grid ->
     exists s, cross_val_score (set_bandwidth est h) data cv = Ok s) ->
  exists scores, grid_scores est grid data cv = Ok scores.
Proof.
  induction grid as [|h grid IH]; intros Hall; simpl.
  - eexists. reflexivity.
  - destruct (Hall h (or_introl eq_refl)) as [s ->].
    destruct IH as [rest ->]; [intros h' Hin; apply Hall; now right|].
    simpl. eexists. reflexivity.
Qed.

(** The sweep keeps the first candidate of maximal score. *)
Lemma best_from_split (rest : list (Q * Q)) :
  forall pre cur mid,
    (forall c, In c pre -> snd c < snd cur) ->
    (forall c, In c mid -> snd c <= snd cur) ->
    exists pre' mid',
      pre ++ cur :: mid ++ rest = pre' ++ best_from cur rest :: mid' /\
      (forall c, In c pre' -> snd c < snd (best_from cur rest)) /\
      (forall c, In c mid' -> snd c <= snd (best_from cur rest)).
Proof.
  induction rest as [|c rest IH]; intros pre cur mid Hpre Hmid; simpl.
  - exists pre, mid. rewrite app_nil_r. auto.
  - destruct (Qlt_bool (snd cur) (snd c)) eqn:E.
    + apply Qlt_bool_iff in E.
      destruct (IH (pre ++ cur :: mid) c []) as [pre' [mid' [Heq Hb]]].
      * intros d Hd. apply in_app_or in Hd.
        destruct Hd as [Hd|[<-|Hd]].
        -- apply Qlt_trans with (snd cur); [now apply Hpre|exact E].
        -- exact E.
        -- apply Qle_lt_trans with (snd cur); [now apply Hmid|exact E].
      * intros d [].
      * exists pre', mid'. split; [|exact Hb].
        rewrite <- Heq. rewrite <- app_assoc. reflexivity.
    + apply Qlt_bool_false_iff in E.
      destruct (IH pre cur (mid ++ [c])) as [pre' [mid' [Heq Hb]]].
      * exact Hpre.
      * intros d Hd. apply in_app_or in Hd.
        destruct Hd as [Hd|[<-|[]]]; [now apply Hmid|exact E].
      * exists pre', mid'. split; [|exact Hb].
        rewrite <- Heq. rewrite <- app_assoc. reflexivity.
Qed.

Lemma best_params_first_max (scores : list (Q * Q)) (best : Q) :
  best_params scores = Ok best ->
  exists k,
    nth_error (map fst scores) k = Some best /\
    (forall i, (i < length scores)%nat ->
       snd (nth i scores (0, 0)) <= snd (nth k scores (0, 0))) /\
    (forall i, (i < k)%nat ->
       snd (nth i scores (0, 0)) < snd (nth k scores (0, 0))).
Proof.
  destruct scores as [|c rest]; [discriminate|].
  intros Hb. unfold best_params in Hb. injection Hb as <-.
  destruct (best_from_split rest [] c []) as [pre [mid [Heq [Hlt Hle]]]];
    [intros d []|intros d []|].
  change ([] ++ c :: [] ++ rest) with (c :: rest) in Heq. rewrite Heq.
  set (b := best_from c rest) in *.
  assert (Hk : nth (length pre) (pre ++ b :: mid) (0, 0) = b).
  { rewrite app_nth2 by lia. now rewrite Nat.sub_diag. }
  exists (length pre). rewrite Hk. split; [|split].
  - rewrite nth_error_map, nth_error_app2 by lia.
    now rewrite Nat.sub_diag.
  - intros i Hi. rewrite length_app in Hi. simpl in Hi.
    destruct (Nat.lt_ge_cases i (length pre)) as [Hlo|Hhi].
    + rewrite app_nth1 by exact Hlo.
      apply Qlt_le_weak, Hlt, nth_In, Hlo.
    + rewrite app_nth2 by exact Hhi.
      destruct (i - length pre)%nat as [|m] eqn:Em; [apply Qle_refl|].
      simpl. apply Hle, nth_In. lia.
  - intros i Hi. rewrite app_nth1 by exact Hi.
    apply Hlt, nth_In, Hi.
Qed.

Lemma best_params_raise (scores : list (Q * Q)) (e : exn) :
  best_params scores = Raise e -> scores = [].
Proof. destruct scores; [reflexivity|discriminate]. Qed.

(** ** The peak of the density *)

Lemma fold_max_spec (vs : list Q) :
  forall v,
    In (fold_left (fun m w => if Qlt_bool m w then w else m) vs v) (v :: vs) /\
    forall w, In w (v :: vs) ->
              w <= fold_left (fun m w => if Qlt_bool m w then w else m) vs v.
Proof.
  induction vs as [|u vs IH]; intros v.
  - simpl. split; [now left|]. intros w [<-|[]]. apply Qle_refl.
  - cbn [fold_left].
    destruct (IH (if Qlt_bool v u then u else v)) as [Hin Hmax].
    set (m := fold_left _ vs _) in *.
    assert (Hv : v <= (if Qlt_bool v u then u else v) /\
                 u <= (if Qlt_bool v u then u else v)).
    { destruct (Qlt_bool v u) eqn:E.
      - apply Qlt_bool_iff in E. split; [now apply Qlt_le_weak|apply Qle_refl].
      - apply Qlt_bool_false_iff in E. split; [apply Qle_refl|exact E]. }
    split.
    + destruct Hin as [Hm|Hm]; [|now right; right].
      rewrite <- Hm. destruct (Qlt_bool v u); [right; now left|now left].
    + intros w [<-|[<-|Hw]].
      * apply Qle_trans with (1 := proj1 Hv). apply Hmax. now left.
      * apply Qle_trans with (1 := proj2 Hv). apply Hmax. now left.
      * apply Hmax. now right.
Qed.

Lemma np_max_spec (a : list Q) (m : Q) :
  np_max a = Ok m -> In m a /\ forall w, In w a -> w <= m.
Proof.
  destruct a as [|v vs]; [discriminate|].
  unfold np_max. intros Hm. injection Hm as <-. apply fold_max_spec.
Qed.

Lemma np_max_raise (a : list Q) (e : exn) : np_max a = Raise e -> a = [].
Proof. destruct a; [reflexivity|discriminate]. Qed.

Lemma getitems_where {A : Type} (p : A -> bool) (l : list A) :
  getitems l (np_where (map p l)) = Ok (filter p l).
Proof.
  pose proof (getitems_where_from (fun v : A => v) p l []) as H.
  simpl in H. now rewrite !map_id in H.
Qed.

Lemma filter_head {A : Type} (p : A -> bool) (l : list A) :
  forall z rest,
    filter p l = z :: rest ->
    exists pre post,
      l = pre ++ z :: post /\ p z = true /\
      forall w, In w pre -> p w = false.
Proof.
  induction l as [|u l IH]; intros z rest Hf; simpl in Hf; [discriminate|].
  destruct (p u) eqn:E.
  - injection Hf as -> _. exists [], l. split; [reflexivity|].
    split; [exact E|intros w []].
  - destruct (IH z rest Hf) as [pre [post [-> [Hz Hpre]]]].
    exists (u :: pre), post. split; [reflexivity|]. split; [exact Hz|].
    intros w [<-|Hw]; [exact E|now apply Hpre].
Qed.

Lemma linspace_nonempty (a b : Q) (n : nat) :
  (0 < n)%nat -> linspace a b n <> [].
Proof.
  intros Hn E. apply (f_equal (@length Q)) in E.
  rewrite linspace_length in E. simpl in E. lia.
Qed.

Lemma grid_size_pos : (0 < 10000)%nat.
Proof. apply Nat.ltb_lt. reflexivity. Qed.

Lemma grid_last_pos : (0 < 9999)%nat.
Proof. apply Nat.ltb_lt. reflexivity. Qed.

(** The first grid point whose density equals the maximum. *)
Lemma peak_first_max {B : Type} (d : Q -> Q) (x : list Q)
  (k : Q -> result B) :
  x <> [] ->
  exists peak j,
    (ymax <- np_max (map d x) ;;
     at_max <- getitems x (np_where (map (fun v => Qeq_bool v ymax) (map d x))) ;;
     peak <- getitem0 at_max ;;
     k peak) = k peak /\
    nth_error x j = Some peak /\
    (forall i v, nth_error (map d x) i = Some v -> v <= d peak) /\
    (forall i v, (i < j)%nat -> nth_error (map d x) i = Some v -> v < d peak).
Proof.
  intros Hx.
  destruct (np_max (map d x)) as [ymax|e] eqn:Emax.
  2:{ apply np_max_raise, map_eq_nil in Emax. contradiction. }
  destruct (np_max_spec _ _ Emax) as [Hin Hle].
  cbn [bind]. rewrite map_map, getitems_where. cbn [bind].
  apply in_map_iff in Hin. destruct Hin as [z [Hz Hzx]].
  destruct (filter (fun v => Qeq_bool (d v) ymax) x) as [|peak rest] eqn:Ef.
  { assert (Hzf : In z (filter (fun v => Qeq_bool (d v) ymax) x)).
    { apply filter_In. split; [exact Hzx|].
      apply Qeq_bool_iff. rewrite Hz. apply Qeq_refl. }
    rewrite Ef in Hzf. destruct Hzf. }
  destruct (filter_head _ _ _ _ Ef) as [pre [post [Hsplit [Hp Hpre]]]].
  apply Qeq_bool_iff in Hp.
  exists peak, (length pre). split; [reflexivity|].
  split; [|split].
  - rewrite Hsplit, nth_error_app2 by lia. now rewrite Nat.sub_diag.
  - intros i v Hv. rewrite Hp. apply Hle. eapply nth_error_In, Hv.
  - intros i v Hi Hv. rewrite Hsplit, nth_error_map in Hv.
    rewrite nth_error_app1 in Hv by exact Hi.
    destruct (nth_error pre i) as [w|] eqn:Ew; [|discriminate].
    simpl in Hv. injection Hv as <-.
    apply nth_error_In in Ew.
    assert (Hwle : d w <= ymax).
    { apply Hle, in_map. rewrite Hsplit. apply in_or_app. now left. }
    assert (Hwne : ~ d w == ymax).
    { intros E. apply Qeq_bool_iff in E. rewrite (Hpre w Ew) in E.
      discriminate. }
    rewrite Hp. apply Qle_lteq in Hwle. tauto.
Qed.

(** ** [make_kde] *)

Arguments linspace : simpl never.

Lemma candidates_length (bwrange : Q * Q) :
  length (linspace (fst bwrange) (snd bwrange) 100) = 100%nat.
Proof. apply linspace_length. Qed.

(** The search returns the first candidate of maximal score, or raises what
    a scoring or the closing refit raised. *)
Lemma GridSearchCV_fit_cases `{Sklearn} (data : list Q) (grid : list Q)
  (cv : nat) :
  grid <> [] ->
  match GridSearchCV_fit (KernelDensity_new None) grid cv data with
  | Ok bw =>
      (exists (score : nat -> Q) (k : nat),
         (forall i h, nth_error grid i = Some h ->
            cross_val_score {| bandwidth := h; kernel := "gaussian" |} data cv
            = Ok (score i)) /\
         nth_error grid k = Some bw /\
         (forall i, (i < length grid)%nat -> score i <= score k) /\
         (forall i, (i < k)%nat -> score i < score k)) /\
      exists f, fit {| bandwidth := bw; kernel := "gaussian" |} data = Ok f
  | Raise e =>
      exists h, In h grid /\
        (cross_val_score {| bandwidth := h; kernel := "gaussian" |} data cv
         = Raise e \/
         fit {| bandwidth := h; kernel := "gaussian" |} data = Raise e)
  end.
Proof.
  intros Hgrid. unfold GridSearchCV_fit.
  destruct (grid_scores (KernelDensity_new None) grid data cv)
    as [scores|e] eqn:Es; cbn [bind].
  2:{ destruct (grid_scores_raise _ _ _ _ _ Es) as [h [Hin Hh]].
      exists h. split; [exact Hin|now left]. }
  destruct (grid_scores_ok _ _ _ _ _ Es) as [Hfst Hall].
  destruct (best_params scores) as [best|e] eqn:Eb; cbn [bind].
  2:{ apply best_params_raise in Eb. subst scores. simpl in Hfst.
      congruence. }
  destruct (best_params_first_max _ _ Eb) as [k [Hk [Hmax Hfirst]]].
  rewrite Hfst in Hk.
  change (set_bandwidth (KernelDensity_new None) best)
    with {| bandwidth := best; kernel := "gaussian" |}.
  destruct (fit {| bandwidth := best; kernel := "gaussian" |} data)
    as [f|e] eqn:Ef; cbn [bind].
  2:{ exists best. split; [eapply nth_error_In, Hk|now right]. }
  split; [|now exists f].
  exists (fun i => snd (nth i scores (0, 0))), k.
  split; [|split; [exact Hk|split; [|exact Hfirst]]].
  - intros i h Hi. rewrite <- Hfst, nth_error_map in Hi.
    destruct (nth_error scores i) as [hs|] eqn:Ehs; [|discriminate].
    simpl in Hi. injection Hi as <-.
    rewrite (nth_error_nth _ _ (0, 0) Ehs).
    rewrite Forall_forall in Hall.
    exact (Hall hs (nth_error_In _ _ Ehs)).
  - intros i Hi. apply Hmax. now rewrite <- Hfst, length_map in Hi.
Qed.

(** Either [make_kde] returns a result that satisfies [kde_result], or it
    raises what scikit-learn raised. *)
Lemma make_kde_cases `{Sklearn} (data : list Q) (datarange bwrange : Q * Q) :
  match make_kde data datarange bwrange with
  | Ok (x, y, peak, bw) => kde_result data datarange bwrange x y peak bw
  | Raise e => library_raised data bwrange e
  end.
Proof.
  unfold make_kde.
  pose proof (GridSearchCV_fit_cases data
                (linspace (fst bwrange) (snd bwrange) 100) 20
                (linspace_nonempty _ _ 100 ltac:(lia))) as Hsearch.
  destruct (GridSearchCV_fit (KernelDensity_new None)
              (linspace (fst bwrange) (snd bwrange) 100) 20 data)
    as [bw|e]; cbn [bind]; [|exact Hsearch].
  destruct Hsearch as [Hbw [f Hf]].
  change (KernelDensity_new (Some bw))
    with {| bandwidth := bw; kernel := "gaussian" |}.
  rewrite Hf. cbn [bind].
  assert (Hx : linspace (fst datarange) (snd datarange) 10000 <> [])
    by (apply linspace_nonempty, grid_size_pos).
  remember (linspace (fst datarange) (snd datarange) 10000) as x eqn:Ex.
  rewrite map_map.
  destruct (peak_first_max (fun v => np_exp (f v)) x
              (fun peak => Ok (x, map (fun v => np_exp (f v)) x, peak, bw)) Hx)
    as [peak [j [Hpeak [Hj [Hmax Hfirst]]]]].
  rewrite Hpeak.
  split.
  - rewrite candidates_length in Hbw. exact Hbw.
  - exists f, j. rewrite <- Ex. repeat split; assumption.
Qed.

Lemma make_kde_total `{Sklearn} (data : list Q) (datarange bwrange : Q * Q) :
  library_succeeds data bwrange ->
  exists x y peak bw,
    make_kde data datarange bwrange = Ok (x, y, peak, bw) /\
    kde_result data datarange bwrange x y peak bw.
Proof.
  intros Hlib. pose proof (make_kde_cases data datarange bwrange) as Hcases.
  destruct (make_kde data datarange bwrange) as [[[[x y] peak] bw]|e].
  - exists x, y, peak, bw. split; [reflexivity|exact Hcases].
  - exfalso. destruct Hcases as [h [Hin [Hcv|Hfit]]];
      destruct (Hlib h Hin) as [[s Hs] [f Hf]]; congruence.
Qed.

Lemma linspace_nth_eq (a b : Q) (n i : nat) :
  (0 < n)%nat -> (i <= n)%nat ->
  nth i (linspace a b (S n)) 0
  == a + inject_Z (Z.of_nat i) * ((b - a) / inject_Z (Z.of_nat n)).
Proof.
  intros Hn Hi. rewrite linspace_nth by assumption.
  destruct (Nat.eq_dec i n) as [->|Hne].
  - rewrite grid_point_last, step_times by exact Hn. lra.
  - rewrite grid_point_below by lia. apply Qeq_refl.
Qed.

Lemma linspace_nth_error_bounds (a b : Q) (n i : nat) (v : Q) :
  a <= b -> (0 < n)%nat ->
  nth_error (linspace a b (S n)) i = Some v -> a <= v /\ v <= b.
Proof.
  intros Hab Hn Hv.
  assert (Hi : (i < S n)%nat).
  { rewrite <- (linspace_length a b (S n)). apply nth_error_Some. congruence. }
  apply (nth_error_nth _ _ 0) in Hv.
  rewrite linspace_nth in Hv by lia. subst v.
  apply grid_point_bounds; [exact Hab|exact Hn|lia].
Qed.

Lemma default_candidates (i : nat) :
  (i < 100)%nat ->
  nth i (linspace (1 # 100) 1 100) 0 == inject_Z (Z.of_nat (S i)) / 100.
Proof.
  intros Hi. rewrite (linspace_nth_eq (1 # 100) 1 99 i) by lia.
  assert (Hstep : (1 - (1 # 100)) / inject_Z (Z.of_nat 99) == 1 # 100)
    by reflexivity.
  rewrite Hstep, inject_Z_of_nat_S. field.
Qed.

(** C1.  With the default search range, [make_kde] either raises what
    scikit-learn raised or returns [x,y,peak,bandwidth] such that
    - there are 100 candidate bandwidths, the [i]-th being [(i+1)/100], so
      they run evenly from 0.01 to 1; every candidate is scored with 20
      folds, the bandwidth is a candidate of maximal score and every earlier
      candidate scores strictly lower;
    - a Gaussian kernel density of that bandwidth is fitted to the whole
      sample;
    - [x] has 10000 points, the [i]-th being [r0 + i*(r1-r0)/9999], and [y]
      is the density at these points;
    - the peak is a grid point of maximal density and every earlier grid
      point has a strictly lower density. *)
Theorem make_kde_first_maxima `{Sklearn} (data : list Q) (datarange : Q * Q) :
  match make_kde data datarange default_bwrange with
  | Ok (x, y, peak, bw) =>
      kde_result data datarange default_bwrange x y peak bw /\
      length (linspace (1 # 100) 1 100) = 100%nat /\
      (forall i, (i < 100)%nat ->
         nth i (linspace (1 # 100) 1 100) 0
         == inject_Z (Z.of_nat (S i)) / 100) /\
      length x = 10000%nat /\
      (forall i, (i < 10000)%nat ->
         nth i x 0
         == fst datarange
            + inject_Z (Z.of_nat i)
              * ((snd datarange - fst datarange) / 9999)) /\
      kernel (KernelDensity_new (Some bw)) = "gaussian"
  | Raise e => library_raised data default_bwrange e
  end.
Proof.
  pose proof (make_kde_cases data datarange default_bwrange) as Hcases.
  destruct (make_kde data datarange default_bwrange)
    as [[[[x y] peak] bw]|e]; [|exact Hcases].
  split; [exact Hcases|].
  destruct Hcases as [_ [f [j [_ [Hx _]]]]].
  split; [apply linspace_length|].
  split; [exact default_candidates|].
  split; [rewrite Hx; apply linspace_length|].
  split; [|reflexivity].
  intros i Hi. rewrite Hx.
  assert (Hi' : (i <= 9999)%nat) by (apply Nat.lt_succ_r; exact Hi).
  exact (linspace_nth_eq (fst datarange) (snd datarange) 9999 i
           grid_last_pos Hi').
Qed.

(** C10.  For a range with [r0 <= r1], a returned peak is a point of the
    grid over the range, so it lies between [r0] and [r1], and the returned
    bandwidth lies between 0.01 and 1; [make_kde] fails to return only when
    scikit-learn raised. *)
Theorem make_kde_peak_in_range `{Sklearn} (data : list Q) (r0 r1 : Q) :
  r0 <= r1 -> peak_in_range data r0 r1.
Proof.
  intros Hr. unfold peak_in_range.
  pose proof (make_kde_cases data (r0, r1) default_bwrange) as Hcases.
  destruct (make_kde data (r0, r1) default_bwrange)
    as [[[[x y] peak] bw]|e]; [|exact Hcases].
  destruct Hcases as [[score [k [_ [Hk _]]]] [f [j [_ [Hx [_ [Hj _]]]]]]].
  simpl fst in *. simpl snd in *.
  split; [exact Hx|]. split; [eapply nth_error_In, Hj|].
  rewrite Hx in Hj. change 10000%nat with (S 9999) in Hj.
  destruct (linspace_nth_error_bounds r0 r1 9999 j peak Hr grid_last_pos Hj)
    as [Hlo Hhi].
  assert (H01 : (1 # 100) <= 1) by (unfold Qle; simpl; lia).
  destruct (linspace_nth_error_bounds (1 # 100) 1 99 k bw H01 ltac:(lia) Hk)
    as [Hblo Hbhi].
  repeat split; assumption.
Qed.

(** The stand-in estimator returns on every sample of at least 20 values. *)
Lemma demo_library_succeeds (data : list Q) (bwrange : Q * Q) :
  (20 <= length data)%nat -> @library_succeeds Demo.sklearn data bwrange.
Proof.
  intros Hlen h _. split.
  - cbn [cross_val_score Demo.sklearn].
    destruct (Nat.ltb_spec (length data) 20) as [Hlt|_]; [lia|].
    eexists. reflexivity.
  - cbn [fit Demo.sklearn].
    destruct data as [|v data]; [simpl in Hlen; lia|].
    eexists. reflexivity.
Qed.

Lemma make_kde_peak_in_range_witness :
  (154 # 10) <= (163 # 10) /\
  @peak_in_range Demo.sklearn Demo.flat_sample (154 # 10) (163 # 10).
Proof.
  assert (Hr : (154 # 10) <= (163 # 10)) by (unfold Qle; simpl; lia).
  split; [exact Hr|].
  exact (@make_kde_peak_in_range Demo.sklearn Demo.flat_sample
           (154 # 10) (163 # 10) Hr).
Defined.

(** ** Degenerate samples *)

(** C6 as stated fails: twenty equal magnitudes are a degenerate sample, and
    [make_kde] returns a peak for them instead of raising. *)
Lemma make_kde_degenerate_returns :
  degenerate Demo.flat_sample = true /\
  (exists x y peak bw,
     @make_kde Demo.sklearn Demo.flat_sample (magrange_gAperture FUV)
       default_bwrange = Ok (x, y, peak, bw)) /\
  @make_kde Demo.sklearn Demo.flat_sample (magrange_gAperture FUV)
    default_bwrange <> Raise InsufficientDataError.
Proof.
  split; [reflexivity|].
  destruct (@make_kde_total Demo.sklearn Demo.flat_sample
              (magrange_gAperture FUV) default_bwrange)
    as [x [y [peak [bw [Hok _]]]]].
  { apply demo_library_succeeds. simpl. lia. }
  split; [now exists x, y, peak, bw|].
  rewrite Hok. discriminate.
Qed.

(** C6, amended.  [make_kde] has no guard for a degenerate sample: on such a
    sample it raises only what a scikit-learn call raised on that sample,
    and when these calls return it returns a peak that is a point of the
    grid. *)
Theorem make_kde_degenerate_unguarded `{Sklearn} (data : list Q)
  (datarange : Q * Q) :
  degenerate data = true ->
  (forall e, make_kde data datarange default_bwrange = Raise e ->
             library_raised data default_bwrange e) /\
  (library_succeeds data default_bwrange ->
   exists x y peak bw,
     make_kde data datarange default_bwrange = Ok (x, y, peak, bw) /\
     In peak x).
Proof.
  intros _. split.
  - intros e He.
    pose proof (make_kde_cases data datarange default_bwrange) as Hcases.
    now rewrite He in Hcases.
  - intros Hlib.
    destruct (make_kde_total data datarange default_bwrange Hlib)
      as [x [y [peak [bw [Hok Hres]]]]].
    exists x, y, peak, bw. split; [exact Hok|].
    destruct Hres as [_ [f [j [_ [_ [_ [Hj _]]]]]]].
    eapply nth_error_In, Hj.
Qed.

Lemma make_kde_degenerate_unguarded_witness :
  degenerate Demo.flat_sample = true /\
  (forall e,
     @make_kde Demo.sklearn Demo.flat_sample (magrange_gAperture FUV)
       default_bwrange = Raise e ->
     @library_raised Demo.sklearn Demo.flat_sample default_bwrange e) /\
  (@library_succeeds Demo.sklearn Demo.flat_sample default_bwrange ->
   exists x y peak bw,
     @make_kde Demo.sklearn Demo.flat_sample (magrange_gAperture FUV)
       default_bwrange = Ok (x, y, peak, bw) /\
     In peak x).
Proof.
  split; [reflexivity|].
  exact (@make_kde_degenerate_unguarded Demo.sklearn Demo.flat_sample
           (magrange_gAperture FUV) eq_refl).
Defined.

(** An empty sample: the first scoring raises, and that exception is what
    [make_kde] raises. *)
Example make_kde_empty_sample :
  degenerate [] = true /\
  @make_kde Demo.sklearn [] (magrange_gAperture FUV) default_bwrange
  = Raise ValueError.
Proof. split; reflexivity. Qed.

(** ** The two calls of the script *)

(** Each distribution block calls [make_kde] on the corrected magnitudes of
    the valid rows; a returned peak lies in the range of the histogram. *)
Lemma kde_gAperture_peak `{GPhoton} `{Sklearn} (band : Band) (df : DataFrame) :
  match kde_gAperture band df with
  | Ok (x, y, peak, bw) =>
      fst (magrange_gAperture band) <= peak /\
      peak <= snd (magrange_gAperture band)
  | Raise e =>
      library_raised
        (map (fun r => mag_mcatbgsub r - apcorrect1 radius band)
           (filter valid df)) default_bwrange e
  end.
Proof.
  unfold kde_gAperture, mags_gAperture, column. rewrite map_map.
  change (map (fun r => mag_mcatbgsub r - apcorrect1 radius band) df)
    with (column (fun r => mag_mcatbgsub r - apcorrect1 radius band) df).
  rewrite getitems_ix. cbn [bind].
  set (sample := map _ (filter valid df)).
  pose proof (make_kde_cases sample (magrange_gAperture band) default_bwrange)
    as Hcases.
  destruct (make_kde sample (magrange_gAperture band) default_bwrange)
    as [[[[x y] peak] bw]|e]; [|exact Hcases].
  destruct Hcases as [_ [f [j [_ [Hx [_ [Hj _]]]]]]].
  rewrite Hx in Hj. change 10000%nat with (S 9999) in Hj.
  exact (linspace_nth_error_bounds _ _ 9999 j peak
           (Qlt_le_weak _ _ (magrange_gAperture_lt band)) grid_last_pos Hj).
Qed.

Lemma kde_MCAT_peak `{GPhoton} `{Sklearn} (band : Band) (df : DataFrame) :
  match kde_MCAT band df with
  | Ok (x, y, peak, bw) =>
      fst (magrange_MCAT band) <= peak /\ peak <= snd (magrange_MCAT band)
  | Raise e =>
      library_raised
        (map (fun r => aper4 r - apcorrect1 (aper2deg 4) band)
           (filter valid df)) default_bwrange e
  end.
Proof.
  unfold kde_MCAT, mags_MCAT, column. rewrite map_map.
  change (map (fun r => aper4 r - apcorrect1 (aper2deg 4) band) df)
    with (column (fun r => aper4 r - apcorrect1 (aper2deg 4) band) df).
  rewrite getitems_ix. cbn [bind].
  set (sample := map _ (filter valid df)).
  pose proof (make_kde_cases sample (magrange_MCAT band) default_bwrange)
    as Hcases.
  destruct (make_kde sample (magrange_MCAT band) default_bwrange)
    as [[[[x y] peak] bw]|e]; [|exact Hcases].
  destruct Hcases as [_ [f [j [_ [Hx [_ [Hj _]]]]]]].
  rewrite Hx in Hj. change 10000%nat with (S 9999) in Hj.
  exact (linspace_nth_error_bounds _ _ 9999 j peak
           (Qlt_le_weak _ _ (magrange_MCAT_lt band)) grid_last_pos Hj).
Qed.

(** The ten-row table has eight valid rows, fewer than the twenty folds:
    the stand-in estimator refuses the sample, and so does the block. *)
Example kde_gAperture_table10 :
  @kde_gAperture Demo.gphoton Demo.sklearn FUV Demo.table10 = Raise ValueError.
Proof. reflexivity. Qed.

(** * Further properties of the script *)

(** ** Baseline statistics *)

Lemma filter_negb_length {A : Type} (p : A -> bool) (l : list A) :
  (length (filter p l) + length (filter (fun x => negb (p x)) l))%nat
  = length l.
Proof.
  induction l as [|x l IH]; simpl; [reflexivity|].
  destruct (p x); simpl; lia.
Qed.

Lemma filter_andb_length_eq {A : Type} (p q : A -> bool) (l : list A) :
  length (filter (fun x => p x && q x) l) = length (filter p l) <->
  forall x, In x l -> p x = true -> q x = true.
Proof.
  induction l as [|x l IH]; simpl.
  - split; [intros _ x []|reflexivity].
  - assert (Hle : (length (filter (fun x => p x && q x) l)
                   <= length (filter p l))%nat).
    { apply filter_length_le. intros y _ Hy. now apply andb_true_iff in Hy. }
    destruct (p x) eqn:Ep; simpl.
    + destruct (q x) eqn:Eq; simpl.
      * split.
        -- intros E y [<-|Hy] Hp; [exact Eq|]. apply IH; [lia|exact Hy|exact Hp].
        -- intros Hall. f_equal. apply IH. intros y Hy. apply Hall. now right.
      * split; [lia|].
        intros Hall. specialize (Hall x (or_introl eq_refl) Ep). congruence.
    + rewrite IH. split.
      * intros Hall y [<-|Hy] Hp; [congruence|now apply Hall].
      * intros Hall y Hy. apply Hall. now right.
Qed.

Lemma bad_count_rows (df : DataFrame) :
  bad_count df = length (filter (fun r => negb (flags r =? 0)%Z) df).
Proof.
  unfold bad_count, column, np_where. rewrite map_map.
  exact (where_from_length (fun r => negb (flags r =? 0)%Z) df 0).
Qed.

(** X1.  The numbers the first loop prints: the flagged ("bad") rows and the
    rows the mask selects never add up to more than the [n] rows of the
    table, and they add up to [n] exactly when no unflagged row has a
    non-positive [aper4]. *)
Theorem baseline_statistics (df : DataFrame) :
  row_count df = length df /\
  (length (ix df) + bad_count df <= row_count df)%nat /\
  ((length (ix df) + bad_count df)%nat = row_count df <->
   forall r, In r df -> flags r = 0%Z -> 0 < aper4 r).
Proof.
  assert (Hn : row_count df = length df).
  { unfold row_count, column. apply length_map. }
  pose proof (filter_negb_length (fun r => (flags r =? 0)%Z) df) as Hsplit.
  assert (Hle : (length (filter valid df)
                 <= length (filter (fun r => (flags r =? 0)%Z) df))%nat).
  { apply filter_length_le. intros r _ Hr. now apply andb_true_iff in Hr. }
  assert (Heq : length (filter valid df)
                = length (filter (fun r => (flags r =? 0)%Z) df) <->
                forall r, In r df -> (flags r =? 0)%Z = true ->
                          Qlt_bool 0 (aper4 r) = true)
    by exact (filter_andb_length_eq (fun r => (flags r =? 0)%Z)
                (fun r => Qlt_bool 0 (aper4 r)) df).
  rewrite Hn, ix_length, bad_count_rows.
  split; [reflexivity|]. split; [lia|].
  split.
  - intros E r Hin Hf. apply Qlt_bool_iff.
    apply (proj1 Heq); [lia|exact Hin|now apply Z.eqb_eq].
  - intros Hall.
    assert (E : length (filter valid df)
                = length (filter (fun r => (flags r =? 0)%Z) df)).
    { apply Heq. intros r Hin Hf. apply Qlt_bool_iff, Hall; [exact Hin|].
      now apply Z.eqb_eq. }
    lia.
Qed.

(** ** Tables put together *)

Lemma where_from_shift (m : list bool) :
  forall k, where_from k m = map (fun i => (k + i)%nat) (where_from 0 m).
Proof.
  induction m as [|b m IH]; intros k; simpl; [reflexivity|].
  assert (E : where_from (S k) m
              = map (fun i => (k + i)%nat) (where_from 1 m)).
  { rewrite (IH (S k)), (IH 1%nat), map_map.
    apply map_ext. intros i. lia. }
  destruct b; simpl; rewrite E; [now rewrite Nat.add_0_r|reflexivity].
Qed.

Lemma where_from_app (m1 m2 : list bool) :
  forall k,
    where_from k (m1 ++ m2)
    = where_from k m1 ++ where_from (k + length m1) m2.
Proof.
  induction m1 as [|b m1 IH]; intros k; simpl.
  - now rewrite Nat.add_0_r.
  - rewrite (IH (S k)).
    replace (S k + length m1)%nat with (k + S (length m1))%nat by lia.
    now destruct b.
Qed.

(** X2.  The mask of two tables put one after the other: the selected
    indices of the first table, followed by the selected indices of the
    second one shifted by the number of rows of the first. *)
Theorem ix_of_appended_tables (df1 df2 : DataFrame) :
  ix (df1 ++ df2) = ix df1 ++ map (fun i => (length df1 + i)%nat) (ix df2).
Proof.
  unfold ix, np_where. rewrite !valid_mask_rows, map_app, where_from_app.
  rewrite length_map. simpl.
  now rewrite (where_from_shift (map valid df2) (length df1)).
Qed.

Lemma count_within_app `{GPhoton} (f : Row -> Q) (apc : Q) (band : Band)
  (df1 df2 : DataFrame) (sigma : Q) :
  exists c1 c2,
    count_within (column f df1) apc band df1 sigma = Ok c1 /\
    count_within (column f df2) apc band df2 sigma = Ok c2 /\
    count_within (column f (df1 ++ df2)) apc band (df1 ++ df2) sigma
    = Ok (c1 + c2)%nat.
Proof.
  rewrite !count_within_rows. do 2 eexists.
  split; [reflexivity|]. split; [reflexivity|].
  now rewrite filter_app, length_app.
Qed.

(** X3.  Counts and totals add up over tables put one after the other, in
    both time-series blocks: no observation is counted for its position in
    the table or for its neighbours. *)
Theorem containment_adds_over_tables `{GPhoton} (band : Band)
  (df1 df2 : DataFrame) (sigma : Q) :
  (exists c1 c2,
     cnt_gAperture band df1 sigma = Ok c1 /\
     cnt_gAperture band df2 sigma = Ok c2 /\
     cnt_gAperture band (df1 ++ df2) sigma = Ok (c1 + c2)%nat) /\
  (exists c1 c2,
     cnt_MCAT band df1 sigma = Ok c1 /\
     cnt_MCAT band df2 sigma = Ok c2 /\
     cnt_MCAT band (df1 ++ df2) sigma = Ok (c1 + c2)%nat) /\
  length (ix (df1 ++ df2)) = (length (ix df1) + length (ix df2))%nat.
Proof.
  split; [apply count_within_app|]. split; [apply count_within_app|].
  rewrite !ix_length. now rewrite filter_app, length_app.
Qed.

(** ** The order of the observations *)

Lemma filter_length_perm {A : Type} (p : A -> bool) (l l' : list A) :
  Permutation l l' -> length (filter p l) = length (filter p l').
Proof.
  intros Hp. induction Hp as [|x l l' _ IH|x y l|l l' l'' _ IH1 _ IH2]; simpl.
  - reflexivity.
  - destruct (p x); simpl; now rewrite IH.
  - destruct (p x), (p y); reflexivity.
  - now rewrite IH1.
Qed.

Lemma hist_valid_rows (g : Row -> Q) (range : Q * Q) (df : DataFrame) :
  np_histogram (map g (filter valid df)) bincnt range
  = map (fun i =>
           length (filter
                     (fun r => valid r &&
                               in_bin (linspace (fst range) (snd range)
                                         (S bincnt)) bincnt i (g r)) df))
      (seq 0 bincnt).
Proof.
  unfold np_histogram. apply map_ext. intros i.
  now rewrite filter_map_length, filter_filter_length.
Qed.

Lemma hist_gAperture_rows `{GPhoton} (band : Band) (df : DataFrame) :
  hist_gAperture band df
  = Ok (np_histogram
          (map (fun r => mag_mcatbgsub r - apcorrect1 radius band)
             (filter valid df)) bincnt (magrange_gAperture band)).
Proof.
  unfold hist_gAperture, mags_gAperture, column. rewrite map_map.
  change (map (fun r => mag_mcatbgsub r - apcorrect1 radius band) df)
    with (column (fun r => mag_mcatbgsub r - apcorrect1 radius band) df).
  now rewrite getitems_ix.
Qed.

Lemma hist_MCAT_rows `{GPhoton} (band : Band) (df : DataFrame) :
  hist_MCAT band df
  = Ok (np_histogram
          (map (fun r => aper4 r - apcorrect1 (aper2deg 4) band)
             (filter valid df)) bincnt (magrange_MCAT band)).
Proof.
  unfold hist_MCAT, mags_MCAT, column. rewrite map_map.
  change (map (fun r => aper4 r - apcorrect1 (aper2deg 4) band) df)
    with (column (fun r => aper4 r - apcorrect1 (aper2deg 4) band) df).
  now rewrite getitems_ix.
Qed.

Lemma hist_valid_rows_perm (g : Row -> Q) (range : Q * Q) (df df' : DataFrame) :
  Permutation df df' ->
  np_histogram (map g (filter valid df)) bincnt range
  = np_histogram (map g (filter valid df')) bincnt range.
Proof.
  intros Hp. rewrite !hist_valid_rows. apply map_ext. intros i.
  now apply filter_length_perm.
Qed.

(** X4.  What the blocks report does not depend on the order of the rows:
    a table and any rearrangement of it give the same count, total and
    percentage in both time-series blocks and the same bin counts in both
    histograms. *)
Theorem reports_ignore_row_order `{GPhoton} (band : Band) (df df' : DataFrame)
  (sigma : Q) :
  Permutation df df' ->
  report_gAperture band df sigma = report_gAperture band df' sigma /\
  report_MCAT band df sigma = report_MCAT band df' sigma /\
  hist_gAperture band df = hist_gAperture band df' /\
  hist_MCAT band df = hist_MCAT band df'.
Proof.
  intros Hp.
  rewrite !report_gAperture_eq, !report_MCAT_eq.
  rewrite !hist_gAperture_rows, !hist_MCAT_rows.
  rewrite (filter_length_perm valid df df' Hp).
  rewrite (filter_length_perm (counted_gAperture band sigma) df df' Hp).
  rewrite (filter_length_perm (counted_MCAT band sigma) df df' Hp).
  rewrite (hist_valid_rows_perm _ (magrange_gAperture band) df df' Hp).
  rewrite (hist_valid_rows_perm _ (magrange_MCAT band) df df' Hp).
  repeat split; reflexivity.
Qed.

Lemma reports_ignore_row_order_witness :
  Permutation Demo.table10 (rev Demo.table10) /\
  @report_gAperture Demo.gphoton FUV Demo.table10 3
  = @report_gAperture Demo.gphoton FUV (rev Demo.table10) 3 /\
  @report_MCAT Demo.gphoton FUV Demo.table10 3
  = @report_MCAT Demo.gphoton FUV (rev Demo.table10) 3 /\
  @hist_gAperture Demo.gphoton FUV Demo.table10
  = @hist_gAperture Demo.gphoton FUV (rev Demo.table10) /\
  @hist_MCAT Demo.gphoton FUV Demo.table10
  = @hist_MCAT Demo.gphoton FUV (rev Demo.table10).
Proof.
  split; [apply Permutation_rev|].
  exact (@reports_ignore_row_order Demo.gphoton FUV Demo.table10
           (rev Demo.table10) 3 (Permutation_rev Demo.table10)).
Defined.

(** ** The reported percentage *)

Lemma percent_exact (c m : nat) :
  (c <= m)%nat -> (0 < m)%nat ->
  exists p,
    percent c m = Ok p /\ (0 <= p <= 100)%Z /\
    (p = 100%Z <-> c = m) /\
    (p = 0%Z <-> (100 * c < m)%nat).
Proof.
  intros Hcm Hm. exists (100 * Z.of_nat c / Z.of_nat m)%Z.
  split; [now apply percent_pos|].
  assert (Hm' : (0 < Z.of_nat m)%Z) by lia.
  assert (Hhi : (100 * Z.of_nat c / Z.of_nat m <= 100)%Z).
  { apply Z.div_le_upper_bound; lia. }
  assert (Hlo : (0 <= 100 * Z.of_nat c / Z.of_nat m)%Z).
  { apply Z.div_pos; lia. }
  split; [lia|]. split.
  - split.
    + intros E.
      pose proof (Z.mul_div_le (100 * Z.of_nat c) (Z.of_nat m) Hm') as Hmul.
      rewrite E in Hmul. lia.
    + intros ->. rewrite Z.div_mul by lia. reflexivity.
  - rewrite Z.div_small_iff by lia. lia.
Qed.

(** X5.  A time-series block either finds the mask empty (and raises, see
    C9) or reports a percentage between 0 and 100; it reports 100 only when
    every selected observation is inside the bounds, and 0 exactly when
    fewer than one in a hundred are. *)
Theorem percent_range_and_extremes `{GPhoton} (band : Band) (df : DataFrame)
  (sigma : Q) :
  match report_gAperture band df sigma with
  | Ok (c, m, p) =>
      (0 <= p <= 100)%Z /\ (p = 100%Z <-> c = m) /\
      (p = 0%Z <-> (100 * c < m)%nat)
  | Raise _ => ix df = []
  end /\
  match report_MCAT band df sigma with
  | Ok (c, m, p) =>
      (0 <= p <= 100)%Z /\ (p = 100%Z <-> c = m) /\
      (p = 0%Z <-> (100 * c < m)%nat)
  | Raise _ => ix df = []
  end.
Proof.
  rewrite report_gAperture_eq, report_MCAT_eq.
  assert (Hnil : length (filter valid df) = 0%nat -> ix df = []).
  { intros E. apply length_zero_iff_nil. now rewrite ix_length. }
  assert (Hg : (length (filter (counted_gAperture band sigma) df)
                <= length (filter valid df))%nat).
  { apply filter_length_le. intros r _ Hr. now apply andb_true_iff in Hr. }
  assert (Hc : (length (filter (counted_MCAT band sigma) df)
                <= length (filter valid df))%nat).
  { apply filter_length_le. intros r _ Hr. now apply andb_true_iff in Hr. }
  destruct (length (filter valid df)) as [|n] eqn:En.
  - rewrite !percent_zero. simpl. split; now apply Hnil.
  - split.
    + destruct (percent_exact _ (S n) Hg ltac:(lia)) as [p [-> Hp]]. exact Hp.
    + destruct (percent_exact _ (S n) Hc ltac:(lia)) as [p [-> Hp]]. exact Hp.
Qed.

(** ** The histograms *)

Lemma np_histogram_app (a1 a2 : list Q) (bins : nat) (range : Q * Q) :
  np_histogram (a1 ++ a2) bins range
  = zip_with Nat.add (np_histogram a1 bins range) (np_histogram a2 bins range).
Proof.
  unfold np_histogram. rewrite (zip_with_map Nat.add).
  apply map_ext. intros i. now rewrite filter_app, length_app.
Qed.

(** X6.  The histogram of two tables put one after the other is the
    bin-by-bin sum of their histograms, in both distribution blocks. *)
Theorem histogram_adds_over_tables `{GPhoton} (band : Band)
  (df1 df2 : DataFrame) :
  (exists h1 h2,
     hist_gAperture band df1 = Ok h1 /\ hist_gAperture band df2 = Ok h2 /\
     hist_gAperture band (df1 ++ df2) = Ok (zip_with Nat.add h1 h2)) /\
  (exists h1 h2,
     hist_MCAT band df1 = Ok h1 /\ hist_MCAT band df2 = Ok h2 /\
     hist_MCAT band (df1 ++ df2) = Ok (zip_with Nat.add h1 h2)).
Proof.
  rewrite !hist_gAperture_rows, !hist_MCAT_rows.
  split; do 2 eexists; (split; [reflexivity|]); (split; [reflexivity|]);
    now rewrite filter_app, map_app, np_histogram_app.
Qed.

Lemma hist_rows_area (f : Row -> Q) (apc : Q) (range : Q * Q) (df : DataFrame) :
  fst range < snd range ->
  (exists r, In r df /\ valid r && in_range range (f r - apc) = true) ->
  exists counts,
    (s <- getitems (map (fun v => v - apc) (column f df)) (ix df) ;;
     Ok (np_histogram s bincnt range)) = Ok counts /\
    Qsum (map (fun d => d * bin_width bincnt range)
            (normed counts bincnt range)) == 1.
Proof.
  intros Hlt [r [Hin Hr]].
  destruct (hist_rows f apc range df Hlt) as [counts [Hc [_ Hsum]]].
  exists counts. split; [exact Hc|].
  apply normed_integrates_to_one; [unfold bincnt; lia|exact Hlt|].
  rewrite Hsum.
  set (p := fun r0 : Row => valid r0 && in_range range (f r0 - apc)) in *.
  assert (Hin' : In r (filter p df)) by (apply filter_In; split; assumption).
  destruct (filter p df); [destruct Hin'|simpl; lia].
Qed.

(** X7.  With [normed=1] each drawn histogram has area one as soon as one
    selected observation falls in the range of that histogram. *)
Theorem histogram_area_is_one `{GPhoton} (band : Band) (df : DataFrame) :
  ((exists r, In r df /\ binned_gAperture band r = true) ->
   exists counts,
     hist_gAperture band df = Ok counts /\
     Qsum (map (fun d => d * bin_width bincnt (magrange_gAperture band))
             (normed counts bincnt (magrange_gAperture band))) == 1) /\
  ((exists r, In r df /\ binned_MCAT band r = true) ->
   exists counts,
     hist_MCAT band df = Ok counts /\
     Qsum (map (fun d => d * bin_width bincnt (magrange_MCAT band))
             (normed counts bincnt (magrange_MCAT band))) == 1).
Proof.
  split; intros Hex.
  - exact (hist_rows_area mag_mcatbgsub (apcorrect1 radius band)
             (magrange_gAperture band) df (magrange_gAperture_lt band) Hex).
  - exact (hist_rows_area aper4 (apcorrect1 (aper2deg 4) band)
             (magrange_MCAT band) df (magrange_MCAT_lt band) Hex).
Qed.

(** On the ten-row table both histograms have an observation to count. *)
Example histogram_area_table10 :
  (exists counts,
     @hist_gAperture Demo.gphoton FUV Demo.table10 = Ok counts /\
     Qsum (map (fun d => d * bin_width bincnt (magrange_gAperture FUV))
             (normed counts bincnt (magrange_gAperture FUV))) == 1) /\
  (exists counts,
     @hist_MCAT Demo.gphoton FUV Demo.table10 = Ok counts /\
     Qsum (map (fun d => d * bin_width bincnt (magrange_MCAT FUV))
             (normed counts bincnt (magrange_MCAT FUV))) == 1).
Proof.
  assert (Hin : In (mkRow 100 0 (157 # 10) (156 # 10)) Demo.table10)
    by (simpl; now left).
  split.
  - apply (hist_rows_area mag_mcatbgsub (@apcorrect1 Demo.gphoton radius FUV)
             (magrange_gAperture FUV) Demo.table10 (magrange_gAperture_lt FUV)).
    eexists. split; [exact Hin|reflexivity].
  - apply (hist_rows_area aper4
             (@apcorrect1 Demo.gphoton (@aper2deg Demo.gphoton 4) FUV)
             (magrange_MCAT FUV) Demo.table10 (magrange_MCAT_lt FUV)).
    eexists. split; [exact Hin|reflexivity].
Qed.

(** ** The medians *)

Lemma insert_sorted_perm (v : Q) (l : list Q) :
  Permutation (v :: l) (insert_sorted v l).
Proof.
  induction l as [|w l IH]; simpl; [apply Permutation_refl|].
  destruct (Qle_bool v w); [apply Permutation_refl|].
  apply perm_trans with (w :: v :: l); [apply perm_swap|].
  now apply perm_skip.
Qed.

Lemma np_sort_perm (l : list Q) : Permutation l (np_sort l).
Proof.
  induction l as [|v l IH]; simpl; [apply perm_nil|].
  apply perm_trans with (v :: np_sort l); [now apply perm_skip|].
  apply insert_sorted_perm.
Qed.

Lemma np_sort_length (l : list Q) : length (np_sort l) = length l.
Proof. symmetry. apply Permutation_length, np_sort_perm. Qed.

Lemma insert_sorted_sorted (v : Q) (l : list Q) :
  StronglySorted Qle l -> StronglySorted Qle (insert_sorted v l).
Proof.
  induction l as [|w l IH]; intros Hs; simpl.
  - constructor; constructor.
  - inversion Hs as [|? ? Hl Hw]; subst.
    destruct (Qle_bool v w) eqn:E.
    + apply Qle_bool_iff in E. constructor; [exact Hs|].
      constructor; [exact E|].
      eapply Forall_impl; [|exact Hw].
      intros x Hx. now apply Qle_trans with w.
    + apply Qle_bool_false_iff in E. constructor; [now apply IH|].
      apply (Permutation_Forall (insert_sorted_perm v l)).
      constructor; [now apply Qlt_le_weak|exact Hw].
Qed.

Lemma np_sort_sorted (l : list Q) : StronglySorted Qle (np_sort l).
Proof.
  induction l as [|v l IH]; simpl; [constructor|].
  now apply insert_sorted_sorted.
Qed.

Lemma sorted_nth_le (s : list Q) :
  StronglySorted Qle s ->
  forall i j, (i <= j)%nat -> (j < length s)%nat -> nth i s 0 <= nth j s 0.
Proof.
  induction 1 as [|v s Hs IH Hv]; intros i j Hij Hj; simpl in Hj; [lia|].
  destruct i as [|i], j as [|j]; simpl; try lia.
  - apply Qle_refl.
  - rewrite Forall_forall in Hv. apply Hv, nth_In. lia.
  - apply IH; lia.
Qed.

Lemma count_prefix (p : Q -> bool) (s : list Q) :
  forall c, (c <= length s)%nat ->
            (forall i, (i < c)%nat -> p (nth i s 0) = true) ->
            (c <= length (filter p s))%nat.
Proof.
  induction s as [|v s IH]; intros c Hc Hp; simpl in *; [lia|].
  destruct c as [|c]; [lia|].
  rewrite (Hp 0%nat) by lia. simpl.
  apply le_n_S, IH; [lia|]. intros i Hi. apply (Hp (S i)). lia.
Qed.

Lemma count_suffix (p : Q -> bool) (s : list Q) :
  forall c, (forall i, (c <= i)%nat -> (i < length s)%nat ->
                       p (nth i s 0) = true) ->
            (length s - c <= length (filter p s))%nat.
Proof.
  induction s as [|v s IH]; intros c Hp; simpl in *; [lia|].
  destruct c as [|c].
  - rewrite (Hp 0%nat) by lia. simpl.
    specialize (IH 0%nat). rewrite Nat.sub_0_r in IH.
    apply le_n_S, IH. intros i _ Hi. apply (Hp (S i)); lia.
  - specialize (IH c).
    assert (Hs : (length s - c <= length (filter p s))%nat).
    { apply IH. intros i Hci Hi. apply (Hp (S i)); lia. }
    destruct (p v); simpl; lia.
Qed.

Lemma half_even_odd (n : nat) :
  n = (2 * (n / 2) + if Nat.even n then 0 else 1)%nat.
Proof.
  pose proof (Nat.div2_odd n) as H. rewrite Nat.div2_div in H.
  rewrite <- Nat.negb_even in H.
  destruct (Nat.even n); cbn [negb Nat.b2n] in H; lia.
Qed.

Lemma mean_between (a b : Q) : a <= b -> a <= (a + b) / 2 /\ (a + b) / 2 <= b.
Proof.
  intros Hab.
  assert (E : (a + b) / 2 == (a + b) * (1 # 2)) by (field).
  rewrite E. split; lra.
Qed.

(** The median of a sorted array lies between its two middle elements. *)
Lemma np_median_middle (a : list Q) (m : Q) :
  np_median a = Some m ->
  (0 < length a)%nat /\
  nth ((length a - 1) / 2) (np_sort a) 0 <= m /\
  m <= nth (length a / 2) (np_sort a) 0.
Proof.
  unfold np_median. rewrite np_sort_length.
  pose proof (half_even_odd (length a)) as Hn.
  pose proof (np_sort_sorted a) as Hs.
  pose proof (np_sort_length a) as Hlen.
  intros Hm.
  assert (Hpos : (0 < length a)%nat).
  { destruct (length a); [discriminate|lia]. }
  split; [exact Hpos|].
  destruct (length a) as [|n'] eqn:En; [lia|].
  cbv beta iota in Hm. rewrite <- En in *. clear En n'.
  remember (length a / 2)%nat as k eqn:Ek.
  revert Hn Hm.
  destruct (Nat.even (length a)); intros Hn Hm; injection Hm as <-.
  - assert (Hk : ((length a - 1) / 2 = k - 1)%nat).
    { symmetry. apply Nat.div_unique with 1%nat; lia. }
    rewrite Hk. apply mean_between.
    apply sorted_nth_le; [exact Hs|lia|lia].
  - assert (Hk : ((length a - 1) / 2 = k)%nat).
    { symmetry. apply Nat.div_unique with 0%nat; lia. }
    rewrite Hk. split; apply Qle_refl.
Qed.

Lemma np_median_none (a : list Q) : np_median a = None <-> a = [].
Proof.
  destruct a as [|v a]; [split; reflexivity|].
  unfold np_median. rewrite np_sort_length. cbn [length].
  destruct (Nat.even (S (length a))); split; discriminate.
Qed.

(** At least half of the array is at most the median and at least half is
    at least the median. *)
Lemma np_median_halves (a : list Q) (m : Q) :
  np_median a = Some m ->
  (length a <= 2 * length (filter (fun v => Qle_bool v m) a))%nat /\
  (length a <= 2 * length (filter (fun v => Qle_bool m v) a))%nat.
Proof.
  intros Hm. destruct (np_median_middle a m Hm) as [Hpos [Hlo Hhi]].
  pose proof (np_sort_sorted a) as Hs.
  pose proof (np_sort_length a) as Hlen.
  pose proof (half_even_odd (length a)) as Hn.
  rewrite (filter_length_perm _ _ _ (np_sort_perm a)).
  rewrite (filter_length_perm (fun v => Qle_bool m v) _ _ (np_sort_perm a)).
  set (s := np_sort a) in *. set (n := length a) in *.
  assert (Hdiv : (n / 2 < n)%nat) by (apply Nat.div_lt; lia).
  assert (Hdiv' : ((n - 1) / 2 <= n / 2)%nat).
  { apply Nat.Div0.div_le_mono; lia. }
  assert (Hmid : (n <= 2 * S ((n - 1) / 2))%nat).
  { pose proof (half_even_odd (n - 1)) as Hn1.
    destruct (Nat.even (n - 1)); lia. }
  split.
  - pose proof (count_prefix (fun v => Qle_bool v m) s (S ((n - 1) / 2))) as Hc.
    assert (Hge : (S ((n - 1) / 2) <= length (filter (fun v => Qle_bool v m) s))%nat).
    { apply Hc; [lia|]. intros i Hi. apply Qle_bool_iff.
      apply Qle_trans with (nth ((n - 1) / 2) s 0); [|exact Hlo].
      apply sorted_nth_le; [exact Hs|lia|lia]. }
    lia.
  - pose proof (count_suffix (fun v => Qle_bool m v) s (n / 2)) as Hc.
    assert (Hge : (length s - n / 2 <= length (filter (fun v => Qle_bool m v) s))%nat).
    { apply Hc. intros i Hi Hlt. apply Qle_bool_iff.
      apply Qle_trans with (nth (n / 2) s 0); [exact Hhi|].
      apply sorted_nth_le; [exact Hs|lia|lia]. }
    destruct (Nat.even n); lia.
Qed.

Lemma np_median_forall (P : Q -> Prop) (a : list Q) (m : Q) :
  (forall u v, P u -> P v -> u <= v -> forall w, u <= w -> w <= v -> P w) ->
  (forall v, In v a -> P v) ->
  np_median a = Some m -> P m.
Proof.
  intros Hconvex Hall Hm.
  destruct (np_median_middle a m Hm) as [Hpos [Hlo Hhi]].
  pose proof (np_sort_length a) as Hlen.
  assert (Hin : forall i, (i < length a)%nat -> P (nth i (np_sort a) 0)).
  { intros i Hi. apply Hall.
    apply (Permutation_in _ (Permutation_sym (np_sort_perm a))).
    apply nth_In. lia. }
  assert (Hdiv : (length a / 2 < length a)%nat) by (apply Nat.div_lt; lia).
  assert (Hdiv' : ((length a - 1) / 2 <= length a / 2)%nat).
  { apply Nat.Div0.div_le_mono; lia. }
  apply (Hconvex (nth ((length a - 1) / 2) (np_sort a) 0)
           (nth (length a / 2) (np_sort a) 0)).
  - apply Hin. lia.
  - apply Hin. lia.
  - apply sorted_nth_le; [apply np_sort_sorted|lia|lia].
  - exact Hlo.
  - exact Hhi.
Qed.

Lemma np_median_value (a : list Q) (m : Q) :
  np_median a = Some m ->
  m == (nth ((length a - 1) / 2) (np_sort a) 0
        + nth (length a / 2) (np_sort a) 0) / 2.
Proof.
  unfold np_median. rewrite np_sort_length.
  pose proof (half_even_odd (length a)) as Hn.
  intros Hm.
  assert (Hpos : (0 < length a)%nat).
  { destruct (length a); [discriminate|lia]. }
  destruct (length a) as [|n'] eqn:En; [lia|].
  cbv beta iota in Hm. rewrite <- En in *. clear En n'.
  remember (length a / 2)%nat as k eqn:Ek.
  revert Hn Hm.
  destruct (Nat.even (length a)); intros Hn Hm; injection Hm as <-.
  - assert (Hk : ((length a - 1) / 2 = k - 1)%nat).
    { symmetry. apply Nat.div_unique with 1%nat; lia. }
    rewrite Hk. apply Qeq_refl.
  - assert (Hk : ((length a - 1) / 2 = k)%nat).
    { symmetry. apply Nat.div_unique with 0%nat; lia. }
    rewrite Hk. field.
Qed.

Lemma np_median_is_median (a : list Q) (m : Q) :
  np_median a = Some m -> is_median a m.
Proof.
  intros Hm. split.
  - intros Hnil. apply np_median_none in Hnil. congruence.
  - exists (np_sort a).
    split; [apply np_sort_perm|]. split; [apply np_sort_sorted|].
    now apply np_median_value.
Qed.

Lemma valid_sample_nil (g : Row -> Q) (df : DataFrame) :
  map g (filter valid df) = [] <-> ix df = [].
Proof.
  rewrite <- !length_zero_iff_nil, length_map, ix_length. tauto.
Qed.

(** The median of a column [g] over the selected rows. *)
Lemma median_rows (g : Row -> Q) (df : DataFrame) :
  match np_median (map g (filter valid df)) with
  | Some m =>
      ix df <> [] /\
      is_median (map g (filter valid df)) m /\
      (length (ix df)
       <= 2 * length (filter (fun r => valid r && Qle_bool (g r) m) df))%nat /\
      (length (ix df)
       <= 2 * length (filter (fun r => valid r && Qle_bool m (g r)) df))%nat
  | None => ix df = []
  end.
Proof.
  destruct (np_median (map g (filter valid df))) as [m|] eqn:Em.
  - destruct (np_median_halves _ m Em) as [Hlo Hhi].
    rewrite length_map, <- ix_length in Hlo, Hhi.
    rewrite filter_map_length, filter_filter_length in Hlo, Hhi.
    split; [|split; [now apply np_median_is_median|split; assumption]].
    intros Hnil. apply (valid_sample_nil g) in Hnil.
    apply np_median_none in Hnil. congruence.
  - now apply (valid_sample_nil g), np_median_none.
Qed.

(** X8.  What the first loop prints is the median of [aper4] over the
    selected rows: indexing never raises; the value is nan exactly when the
    mask is empty; otherwise it is the mean of the two middle elements of
    the selected [aper4] put in increasing order, at least half of them are
    at most that value and at least half are at least that value, and it is
    strictly positive. *)
Theorem median_of_selected_aper4 (df : DataFrame) :
  match median_aper4 df with
  | Ok (Some m) =>
      ix df <> [] /\
      is_median (map aper4 (filter valid df)) m /\
      (length (ix df)
       <= 2 * length (filter (fun r => valid r && Qle_bool (aper4 r) m) df))%nat /\
      (length (ix df)
       <= 2 * length (filter (fun r => valid r && Qle_bool m (aper4 r)) df))%nat /\
      0 < m
  | Ok None => ix df = []
  | Raise _ => False
  end.
Proof.
  unfold median_aper4. rewrite getitems_ix. cbn [bind].
  pose proof (median_rows aper4 df) as Hrows.
  destruct (np_median (map aper4 (filter valid df))) as [m|] eqn:Em;
    [|exact Hrows].
  destruct Hrows as [Hne [Hmed [Hlo Hhi]]].
  repeat (split; [assumption|]).
  apply (np_median_forall (fun v => 0 < v)
           (map aper4 (filter valid df)) m); [| |exact Em].
  - intros u v Hu _ _ w Huw _. now apply Qlt_le_trans with u.
  - intros v Hv. apply in_map_iff in Hv. destruct Hv as [r [<- Hr]].
    apply filter_In in Hr. now apply valid_iff.
Qed.

(** X9.  The median line of each distribution block is the median of the
    corrected magnitudes of the selected rows: it is nan exactly when the
    mask is empty; otherwise it is the mean of the two middle elements of
    these magnitudes put in increasing order, and it splits the sample in
    halves: at least half of the magnitudes are at most the median and at
    least half are at least the median. *)
Theorem median_splits_the_sample `{GPhoton} (band : Band) (df : DataFrame) :
  match median_gAperture band df with
  | Ok (Some m) =>
      ix df <> [] /\
      is_median
        (map (fun r => mag_mcatbgsub r - apcorrect1 radius band)
           (filter valid df)) m /\
      (length (ix df)
       <= 2 * length (filter
                        (fun r => valid r &&
                           Qle_bool (mag_mcatbgsub r - apcorrect1 radius band) m)
                        df))%nat /\
      (length (ix df)
       <= 2 * length (filter
                        (fun r => valid r &&
                           Qle_bool m (mag_mcatbgsub r - apcorrect1 radius band))
                        df))%nat
  | Ok None => ix df = []
  | Raise _ => False
  end /\
  match median_MCAT band df with
  | Ok (Some m) =>
      ix df <> [] /\
      is_median
        (map (fun r => aper4 r - apcorrect1 (aper2deg 4) band)
           (filter valid df)) m /\
      (length (ix df)
       <= 2 * length (filter
                        (fun r => valid r &&
                           Qle_bool (aper4 r - apcorrect1 (aper2deg 4) band) m)
                        df))%nat /\
      (length (ix df)
       <= 2 * length (filter
                        (fun r => valid r &&
                           Qle_bool m (aper4 r - apcorrect1 (aper2deg 4) band))
                        df))%nat
  | Ok None => ix df = []
  | Raise _ => False
  end.
Proof.
  unfold median_gAperture, median_MCAT, mags_gAperture, mags_MCAT, column.
  rewrite !map_map.
  change (map (fun r => mag_mcatbgsub r - apcorrect1 radius band) df)
    with (column (fun r => mag_mcatbgsub r - apcorrect1 radius band) df).
  change (map (fun r => aper4 r - apcorrect1 (aper2deg 4) band) df)
    with (column (fun r => aper4 r - apcorrect1 (aper2deg 4) band) df).
  rewrite !getitems_ix. cbn [bind].
  split.
  - exact (median_rows (fun r => mag_mcatbgsub r - apcorrect1 radius band) df).
  - exact (median_rows (fun r => aper4 r - apcorrect1 (aper2deg 4) band) df).
Qed.

(** The ten-row table: the selected [aper4] sorted are
    15.6, 15.69, 15.7, 15.7, 15.71, 15.8, 15.9, 20, so the median is the
    mean of 15.7 and 15.71. *)
Example median_aper4_table10 :
  median_aper4 Demo.table10 = Ok (Some (((157 # 10) + (1571 # 100)) / 2)).
Proof. reflexivity. Qed.

(** ** The reference line and the dashed curves *)

Lemma np_arange_length (a b : Z) : length (np_arange a b) = Z.to_nat (b - a).
Proof. unfold np_arange. now rewrite length_map, length_seq. Qed.

Lemma np_arange_nth_error (a b : Z) (i : nat) :
  (i < Z.to_nat (b - a))%nat ->
  nth_error (np_arange a b) i = Some (a + Z.of_nat i)%Z.
Proof.
  intros Hi. unfold np_arange.
  rewrite nth_error_map, (nth_error_nth' _ 0%nat) by (rewrite length_seq; lia).
  rewrite seq_nth by lia. reflexivity.
Qed.

Lemma np_arange_In (a b k : Z) : In k (np_arange a b) -> (a <= k < b)%Z.
Proof.
  unfold np_arange. intros Hin. apply in_map_iff in Hin.
  destruct Hin as [i [<- Hi]]. apply in_seq in Hi. lia.
Qed.

(** X10.  When [tmin] is not negative the exposure axis starts at 1 or
    later, so [t/t] never divides by zero: the reference line has one point
    per second from [tmin+1] to [tmax], each at the reference magnitude of
    the band. *)
Theorem reference_line_is_flat (band : Band) (tmin tmax : Z) :
  (0 <= tmin)%Z ->
  length (reference_line band tmin tmax) = Z.to_nat (tmax - tmin) /\
  (forall k, In k (exposure_axis tmin tmax) -> (tmin < k <= tmax)%Z) /\
  (forall v, In v (reference_line band tmin tmax) -> v == refmag band).
Proof.
  intros Htmin. unfold reference_line, exposure_axis.
  set (t := np_arange (tmin + 1) (tmax + 1)).
  assert (Hzip : zip_with np_int_div t t = map (fun q => np_int_div q q) t).
  { rewrite <- (map_id t) at 1 2.
    now rewrite (zip_with_map np_int_div (fun q => q) (fun q => q)). }
  rewrite Hzip, map_map.
  split; [|split].
  - rewrite length_map. unfold t. rewrite np_arange_length. f_equal. lia.
  - intros k Hk. apply np_arange_In in Hk. lia.
  - intros v Hv. apply in_map_iff in Hv. destruct Hv as [q [<- Hq]].
    apply np_arange_In in Hq. unfold np_int_div.
    destruct (Z.eqb_spec q 0) as [E|_]; [lia|].
    rewrite Z.div_same by lia. change (inject_Z 1) with 1. lra.
Qed.

Lemma reference_line_is_flat_witness :
  (0 <= 0)%Z /\
  length (reference_line FUV 0 300) = Z.to_nat (300 - 0) /\
  (forall k, In k (exposure_axis 0 300) -> (0 < k <= 300)%Z) /\
  (forall v, In v (reference_line FUV 0 300) -> v == refmag FUV).
Proof.
  split; [lia|]. apply (reference_line_is_flat FUV 0 300). lia.
Defined.

Lemma drawn_envelope_nth `{GPhoton} (band : Band) (tmin tmax k : Z) (sigma : Q) :
  (tmin < k <= tmax)%Z ->
  nth (Z.to_nat (k - tmin - 1)) (fst (drawn_envelope band tmin tmax sigma)) 0
  = fst (data_errors (refmag band) band (inject_Z k) sigma) /\
  nth (Z.to_nat (k - tmin - 1)) (snd (drawn_envelope band tmin tmax sigma)) 0
  = snd (data_errors (refmag band) band (inject_Z k) sigma).
Proof.
  intros Hk. unfold drawn_envelope, data_errors_array, exposure_axis.
  cbn [fst snd]. rewrite !map_map.
  assert (Hnth : nth_error (np_arange (tmin + 1) (tmax + 1))
                   (Z.to_nat (k - tmin - 1)) = Some k).
  { rewrite np_arange_nth_error by lia. f_equal. lia. }
  split; apply nth_error_nth; rewrite nth_error_map, Hnth; reflexivity.
Qed.

(** X11.  The dashed curves and the count agree: an observation whose
    exposure time is a whole number of seconds [k] on the drawn axis is
    counted exactly when it is selected by the mask and its corrected
    magnitude lies between the two curves at [k], in both time-series
    blocks. *)
Theorem counted_iff_between_drawn_curves `{GPhoton} (band : Band)
  (tmin tmax k : Z) (r : Row) :
  (tmin < k <= tmax)%Z ->
  exptime r = inject_Z k ->
  (counted_gAperture band nsigma r = true <->
   valid r = true /\
   nth (Z.to_nat (k - tmin - 1))
     (snd (drawn_envelope_gAperture band tmin tmax)) 0
     <= mag_mcatbgsub r - apcorrect1 radius band /\
   mag_mcatbgsub r - apcorrect1 radius band
     <= nth (Z.to_nat (k - tmin - 1))
          (fst (drawn_envelope_gAperture band tmin tmax)) 0) /\
  (counted_MCAT band nsigma r = true <->
   valid r = true /\
   nth (Z.to_nat (k - tmin - 1)) (snd (drawn_envelope_MCAT band tmin tmax)) 0
     <= aper4 r - apcorrect1 (aper2deg 4) band /\
   aper4 r - apcorrect1 (aper2deg 4) band
     <= nth (Z.to_nat (k - tmin - 1))
          (fst (drawn_envelope_MCAT band tmin tmax)) 0).
Proof.
  intros Hk Ht.
  unfold drawn_envelope_gAperture, drawn_envelope_MCAT.
  change 3 with nsigma.
  destruct (drawn_envelope_nth band tmin tmax k nsigma Hk) as [-> ->].
  unfold counted_gAperture, counted_MCAT.
  rewrite !andb_true_iff, !within_iff, Ht. tauto.
Qed.

Lemma counted_iff_between_drawn_curves_witness :
  (0 < 100 <= 300)%Z /\
  exptime (mkRow 100 0 (157 # 10) (156 # 10)) = inject_Z 100 /\
  (@counted_gAperture Demo.gphoton FUV nsigma
     (mkRow 100 0 (157 # 10) (156 # 10)) = true <->
   valid (mkRow 100 0 (157 # 10) (156 # 10)) = true /\
   nth (Z.to_nat (100 - 0 - 1))
     (snd (@drawn_envelope_gAperture Demo.gphoton FUV 0 300)) 0
     <= (156 # 10) - @apcorrect1 Demo.gphoton radius FUV /\
   (156 # 10) - @apcorrect1 Demo.gphoton radius FUV
     <= nth (Z.to_nat (100 - 0 - 1))
          (fst (@drawn_envelope_gAperture Demo.gphoton FUV 0 300)) 0) /\
  (@counted_MCAT Demo.gphoton FUV nsigma
     (mkRow 100 0 (157 # 10) (156 # 10)) = true <->
   valid (mkRow 100 0 (157 # 10) (156 # 10)) = true /\
   nth (Z.to_nat (100 - 0 - 1))
     (snd (@drawn_envelope_MCAT Demo.gphoton FUV 0 300)) 0
     <= (157 # 10)
        - @apcorrect1 Demo.gphoton (@aper2deg Demo.gphoton 4) FUV /\
   (157 # 10) - @apcorrect1 Demo.gphoton (@aper2deg Demo.gphoton 4) FUV
     <= nth (Z.to_nat (100 - 0 - 1))
          (fst (@drawn_envelope_MCAT Demo.gphoton FUV 0 300)) 0).
Proof.
  split; [lia|]. split; [reflexivity|].
  exact (@counted_iff_between_drawn_curves Demo.gphoton FUV 0 300 100
           (mkRow 100 0 (157 # 10) (156 # 10)) ltac:(lia) eq_refl).
Defined.

(** ** More on [make_kde] *)

(** After the search and the fit nothing can fail any more. *)
Lemma make_kde_after_fit `{Sklearn} (data : list Q) (datarange bwrange : Q * Q) :
  match GridSearchCV_fit (KernelDensity_new None)
          (linspace (fst bwrange) (snd bwrange) 100) 20 data with
  | Ok bw =>
      match fit {| bandwidth := bw; kernel := "gaussian" |} data with
      | Ok f =>
          exists x y peak,
            make_kde data datarange bwrange = Ok (x, y, peak, bw)
      | Raise e => make_kde data datarange bwrange = Raise e
      end
  | Raise e => make_kde data datarange bwrange = Raise e
  end.
Proof.
  unfold make_kde.
  destruct (GridSearchCV_fit (KernelDensity_new None)
              (linspace (fst bwrange) (snd bwrange) 100) 20 data)
    as [bw|e]; cbn [bind]; [|reflexivity].
  change (KernelDensity_new (Some bw))
    with {| bandwidth := bw; kernel := "gaussian" |}.
  destruct (fit {| bandwidth := bw; kernel := "gaussian" |} data)
    as [f|e]; cbn [bind]; [|reflexivity].
  assert (Hx : linspace (fst datarange) (snd datarange) 10000 <> [])
    by (apply linspace_nonempty, grid_size_pos).
  remember (linspace (fst datarange) (snd datarange) 10000) as x eqn:Ex.
  rewrite map_map.
  destruct (peak_first_max (fun v => np_exp (f v)) x
              (fun peak => Ok (x, map (fun v => np_exp (f v)) x, peak, bw)) Hx)
    as [peak [j [Hpeak _]]].
  rewrite Hpeak. now exists x, (map (fun v => np_exp (f v)) x), peak.
Qed.

(** X12.  Neither the returned bandwidth nor the raised exception depends on
    the range over which the density is evaluated: two calls on one sample
    and one search range return the same bandwidth, or raise the same
    exception. *)
Theorem bandwidth_ignores_datarange `{Sklearn} (data : list Q)
  (r r' bwrange : Q * Q) :
  match make_kde data r bwrange, make_kde data r' bwrange with
  | Ok (_, _, _, bw), Ok (_, _, _, bw') => bw = bw'
  | Raise e, Raise e' => e = e'
  | _, _ => False
  end.
Proof.
  pose proof (make_kde_after_fit data r bwrange) as H1.
  pose proof (make_kde_after_fit data r' bwrange) as H2.
  destruct (GridSearchCV_fit (KernelDensity_new None)
              (linspace (fst bwrange) (snd bwrange) 100) 20 data) as [bw|e].
  - destruct (fit {| bandwidth := bw; kernel := "gaussian" |} data) as [f|e].
    + destruct H1 as [x [y [peak ->]]]. destruct H2 as [x' [y' [peak' ->]]].
      reflexivity.
    + rewrite H1, H2. reflexivity.
  - rewrite H1, H2. reflexivity.
Qed.

(** X14.  Ties go to the left: when all the candidates that were scored have
    equal scores the bandwidth is the first candidate, the lower end of the
    search range; when the density is the same at every grid point the peak
    is the first grid point, the lower end of the range. *)
Theorem make_kde_ties_go_left `{Sklearn} (data : list Q)
  (datarange bwrange : Q * Q) :
  match make_kde data datarange bwrange with
  | Ok (x, y, peak, bw) =>
      ((forall h h' s s',
          In h (linspace (fst bwrange) (snd bwrange) 100) ->
          In h' (linspace (fst bwrange) (snd bwrange) 100) ->
          cross_val_score {| bandwidth := h; kernel := "gaussian" |} data 20
          = Ok s ->
          cross_val_score {| bandwidth := h'; kernel := "gaussian" |} data 20
          = Ok s' ->
          s == s') ->
       nth_error (linspace (fst bwrange) (snd bwrange) 100) 0 = Some bw /\
       bw == fst bwrange) /\
      ((forall u v, In u y -> In v y -> u == v) ->
       nth_error x 0 = Some peak /\ peak == fst datarange)
  | Raise _ => True
  end.
Proof.
  pose proof (make_kde_cases data datarange bwrange) as Hcases.
  destruct (make_kde data datarange bwrange)
    as [[[[x y] peak] bw]|e]; [|exact I].
  destruct Hcases as [[score [k [Hscore [Hk [_ Hfirst]]]]]
                        [f [j [_ [Hx [Hy [Hj [_ Hbefore]]]]]]]].
  split.
  - intros Hties.
    assert (Hk0 : k = 0%nat).
    { destruct k as [|k]; [reflexivity|]. exfalso.
      destruct (nth_error (linspace (fst bwrange) (snd bwrange) 100) 0)
        as [h0|] eqn:E0.
      - pose proof (Hties h0 bw _ _ (nth_error_In _ _ E0) (nth_error_In _ _ Hk)
                      (Hscore _ _ E0) (Hscore _ _ Hk)) as Heq.
        pose proof (Hfirst 0%nat ltac:(lia)) as Hlt.
        rewrite Heq in Hlt. exact (Qlt_irrefl _ Hlt).
      - apply nth_error_None in E0. rewrite linspace_length in E0. lia. }
    subst k. split; [exact Hk|].
    apply (nth_error_nth _ _ 0) in Hk.
    rewrite (linspace_nth _ _ 99 0) in Hk by lia. subst bw.
    apply grid_point_first. lia.
  - intros Hflat.
    assert (Hj0 : j = 0%nat).
    { destruct j as [|j]; [reflexivity|]. exfalso.
      assert (Hpy : In (np_exp (f peak)) y).
      { rewrite Hy. apply in_map_iff. exists peak.
        split; [reflexivity|eapply nth_error_In, Hj]. }
      destruct (nth_error y 0) as [v0|] eqn:E0.
      - pose proof (Hbefore 0%nat v0 ltac:(lia) E0) as Hlt.
        rewrite (Hflat v0 _ (nth_error_In _ _ E0) Hpy) in Hlt.
        exact (Qlt_irrefl _ Hlt).
      - apply nth_error_None in E0. destruct y; [destruct Hpy|simpl in E0; lia]. }
    subst j. split; [exact Hj|].
    rewrite Hx in Hj. apply (nth_error_nth _ _ 0) in Hj.
    change 10000%nat with (S 9999) in Hj.
    rewrite (linspace_nth _ _ 9999 0 grid_last_pos (Nat.le_0_l _)) in Hj.
    subst peak. apply grid_point_first, grid_last_pos.
Qed.

Lemma make_kde_ties_go_left_witness :
  exists x y peak bw,
    @make_kde flat_sklearn Demo.flat_sample (154 # 10, 163 # 10)
      default_bwrange = Ok (x, y, peak, bw) /\
    bw == (1 # 100) /\ peak == (154 # 10).
Proof.
  destruct (@make_kde_total flat_sklearn Demo.flat_sample (154 # 10, 163 # 10)
              default_bwrange)
    as [x [y [peak [bw [Hok Hres]]]]].
  { intros h _. split; eexists; reflexivity. }
  pose proof (@make_kde_ties_go_left flat_sklearn Demo.flat_sample
                (154 # 10, 163 # 10) default_bwrange) as Hties.
  rewrite Hok in Hties. destruct Hties as [Hbw Hpeak].
  exists x, y, peak, bw. split; [exact Hok|]. split.
  - apply Hbw. intros h h' s s' _ _ Hs Hs'.
    injection Hs as <-. injection Hs' as <-. apply Qeq_refl.
  - apply Hpeak. destruct Hres as [_ [f [j [Hfit [_ [Hy _]]]]]].
    injection Hfit as <-. intros u v Hu Hv. rewrite Hy in Hu, Hv.
    apply in_map_iff in Hu. apply in_map_iff in Hv.
    destruct Hu as [? [<- _]]. destruct Hv as [? [<- _]]. apply Qeq_refl.
Defined.

(** X15.  For any search range given from its lower to its upper end, a
    returned bandwidth is one of the 100 candidates and lies in the search
    range; [make_kde] fails to return only when scikit-learn raised. *)
Theorem make_kde_bandwidth_in_range `{Sklearn} (data : list Q)
  (datarange bwrange : Q * Q) :
  fst bwrange <= snd bwrange -> bandwidth_in_range data datarange bwrange.
Proof.
  intros Hb. unfold bandwidth_in_range.
  pose proof (make_kde_cases data datarange bwrange) as Hcases.
  destruct (make_kde data datarange bwrange)
    as [[[[x y] peak] bw]|e]; [|exact Hcases].
  destruct Hcases as [[score [k [_ [Hk _]]]] _].
  split; [eapply nth_error_In, Hk|].
  exact (linspace_nth_error_bounds _ _ 99 k bw Hb ltac:(lia) Hk).
Qed.

Lemma make_kde_bandwidth_in_range_witness :
  fst (1 # 10, 1 # 2) <= snd (1 # 10, 1 # 2) /\
  @bandwidth_in_range Demo.sklearn Demo.flat_sample (154 # 10, 163 # 10)
    (1 # 10, 1 # 2).
Proof.
  assert (Hb : fst (1 # 10, 1 # 2) <= snd (1 # 10, 1 # 2))
    by (unfold Qle; simpl; lia).
  split; [exact Hb|].
  exact (@make_kde_bandwidth_in_range Demo.sklearn Demo.flat_sample
           (154 # 10, 163 # 10) (1 # 10, 1 # 2) Hb).
Defined.

(** X16.  The two calls of the script pass the corrected magnitudes of the
    selected rows and the range of the histogram: indexing never raises, a
    returned peak lies in the range of the histogram it is drawn on, and an
    exception is one scikit-learn raised on that sample. *)
Theorem kde_calls_peak_in_histogram_range `{GPhoton} `{Sklearn} (band : Band)
  (df : DataFrame) :
  match kde_gAperture band df with
  | Ok (x, y, peak, bw) =>
      fst (magrange_gAperture band) <= peak /\
      peak <= snd (magrange_gAperture band)
  | Raise e =>
      library_raised
        (map (fun r => mag_mcatbgsub r - apcorrect1 radius band)
           (filter valid df)) default_bwrange e
  end /\
  match kde_MCAT band df with
  | Ok (x, y, peak, bw) =>
      fst (magrange_MCAT band) <= peak /\ peak <= snd (magrange_MCAT band)
  | Raise e =>
      library_raised
        (map (fun r => aper4 r - apcorrect1 (aper2deg 4) band)
           (filter valid df)) default_bwrange e
  end.
Proof.
  split; [apply kde_gAperture_peak|apply kde_MCAT_peak].
Qed.

(** ** One run of the script *)

Section Loops.

Variable body : Band -> result string.
Variable name : Band -> string.
Hypothesis body_name : forall b n, body b = Ok n -> n = name b.

(** A loop saves the files of the bands before the first one whose body
    raises. *)
Lemma for_bands_outcome (keys : list Band) :
  forall saved,
  exists done rest,
    keys = done ++ rest /\
    fst (for_bands body keys saved) = saved ++ map name done /\
    (forall b, In b done -> body b = Ok (name b)) /\
    match snd (for_bands body keys saved) with
    | None => rest = []
    | Some e => exists b rest', rest = b :: rest' /\ body b = Raise e
    end.
Proof.
  induction keys as [|b keys IH]; intros saved; simpl.
  - exists [], []. simpl. rewrite app_nil_r.
    split; [reflexivity|]. split; [reflexivity|].
    split; [intros b []|reflexivity].
  - destruct (body b) as [n|e] eqn:Eb.
    + pose proof (body_name b n Eb) as ->.
      destruct (IH (saved ++ [name b])) as [done [rest [Hk [Hf [Hok Hs]]]]].
      exists (b :: done), rest.
      split; [simpl; f_equal; exact Hk|].
      split; [rewrite Hf; simpl; now rewrite <- app_assoc|].
      split; [|exact Hs].
      intros b' [<-|Hin]; [exact Eb|now apply Hok].
    + exists [], (b :: keys). simpl. rewrite app_nil_r.
      split; [reflexivity|]. split; [reflexivity|].
      split; [intros b' []|]. now exists b, keys.
Qed.

End Loops.

Lemma run_loops_outcome
  (loops : list ((Band -> result string) * (Band -> string)))
  (keys : list Band) :
  Forall (fun l => forall b n, fst l b = Ok n -> n = snd l b) loops ->
  forall saved,
    (exists missing,
       saved ++ flat_map (fun l => map (snd l) keys) loops
       = fst (run_loops (map fst loops) keys saved) ++ missing /\
       (snd (run_loops (map fst loops) keys saved) = None <-> missing = [])) /\
    (snd (run_loops (map fst loops) keys saved) = None <->
     forall l b, In l loops -> In b keys -> exists n, fst l b = Ok n) /\
    (forall e, snd (run_loops (map fst loops) keys saved) = Some e ->
       exists l b, In l loops /\ In b keys /\ fst l b = Raise e).
Proof.
  induction 1 as [|l loops Hl Hloops IH]; intros saved.
  - simpl. split; [|split].
    + exists []. split; [reflexivity|tauto].
    + split; [intros _ l b []|reflexivity].
    + discriminate.
  - cbn [map run_loops flat_map]. unfold and_then.
    destruct (for_bands_outcome (fst l) (snd l) Hl keys saved)
      as [done [rest [Hk [Hf [Hok Hs]]]]].
    destruct (snd (for_bands (fst l) keys saved)) as [e|] eqn:Es.
    + destruct Hs as [b [rest' [-> Hb]]].
      assert (Hin : In b keys) by (rewrite Hk; apply in_or_app; right; now left).
      rewrite Es. split; [|split].
      * exists (map (snd l) (b :: rest')
                ++ flat_map (fun l0 => map (snd l0) keys) loops).
        rewrite Hf, Hk, map_app, <- !app_assoc.
        split; [reflexivity|]. split; [discriminate|].
        simpl. discriminate.
      * split; [discriminate|]. intros Hall.
        destruct (Hall l b (or_introl eq_refl) Hin) as [n Hn]. congruence.
      * intros e' He'. injection He' as <-. exists l, b.
        split; [now left|]. split; assumption.
    + subst rest. rewrite app_nil_r in Hk. subst done.
      rewrite Hf.
      destruct (IH (saved ++ map (snd l) keys))
        as [[missing [Hm Hnone]] [Hall Hraise]].
      split; [|split].
      * exists missing. rewrite <- Hm, <- app_assoc.
        split; [reflexivity|exact Hnone].
      * rewrite Hall. split.
        -- intros Hrest l0 b [<-|Hin] Hb; [|now apply Hrest].
           exists (snd l b). now apply Hok.
        -- intros Hrest l0 b Hin Hb. apply Hrest; [now right|exact Hb].
      * intros e He. destruct (Hraise e He) as [l0 [b [Hin Hb]]].
        exists l0, b. split; [now right|exact Hb].
Qed.

Lemma savefig_name_ok (band : Band) (kind : PlotKind) (src : Source) :
  savefig_name band kind src = Ok (file_name band kind src).
Proof. destruct band, kind, src; reflexivity. Qed.

Lemma baseline_loop_ok (data : Band -> DataFrame) (keys : list Band) :
  exists lines, baseline_loop data keys = Ok lines.
Proof.
  induction keys as [|b keys [lines IH]]; simpl; [now eexists|].
  unfold baseline, median_aper4. rewrite getitems_ix, IH. cbn [bind].
  now eexists.
Qed.

Lemma timeseries_body `{GPhoton}
  (report : Band -> DataFrame -> Q -> result (nat * nat * Z)) (c : Row -> bool)
  (kind : PlotKind) (src : Source) (band : Band) (df : DataFrame) :
  report band df nsigma
  = (p <- percent (length (filter c df)) (length (filter valid df)) ;;
     Ok (length (filter c df), length (filter valid df), p)) ->
  (_ <- report band df nsigma ;; savefig_name band kind src)
  = match ix df with
    | [] => Raise ZeroDivisionError
    | _ => Ok (file_name band kind src)
    end.
Proof.
  intros ->. pose proof (ix_length df) as Hlen.
  destruct (ix df) as [|i l]; simpl in Hlen; rewrite <- Hlen.
  - now rewrite percent_zero.
  - rewrite percent_pos by lia. cbn [bind]. apply savefig_name_ok.
Qed.

Lemma timeseries_gAperture_body `{GPhoton} (data : Band -> DataFrame)
  (band : Band) :
  timeseries_gAperture data band
  = match ix (data band) with
    | [] => Raise ZeroDivisionError
    | _ => Ok (file_name band TimeSeries Processed)
    end.
Proof.
  apply (timeseries_body report_gAperture (counted_gAperture band nsigma)).
  apply report_gAperture_eq.
Qed.

Lemma timeseries_MCAT_body `{GPhoton} (data : Band -> DataFrame) (band : Band) :
  timeseries_MCAT data band
  = match ix (data band) with
    | [] => Raise ZeroDivisionError
    | _ => Ok (file_name band TimeSeries Catalog)
    end.
Proof.
  apply (timeseries_body report_MCAT (counted_MCAT band nsigma)).
  apply report_MCAT_eq.
Qed.

Lemma median_gAperture_ok `{GPhoton} (band : Band) (df : DataFrame) :
  exists m, median_gAperture band df = Ok m.
Proof.
  unfold median_gAperture, mags_gAperture, column. rewrite map_map.
  change (map (fun r => mag_mcatbgsub r - apcorrect1 radius band) df)
    with (column (fun r => mag_mcatbgsub r - apcorrect1 radius band) df).
  rewrite getitems_ix. now eexists.
Qed.

Lemma median_MCAT_ok `{GPhoton} (band : Band) (df : DataFrame) :
  exists m, median_MCAT band df = Ok m.
Proof.
  unfold median_MCAT, mags_MCAT, column. rewrite map_map.
  change (map (fun r => aper4 r - apcorrect1 (aper2deg 4) band) df)
    with (column (fun r => aper4 r - apcorrect1 (aper2deg 4) band) df).
  rewrite getitems_ix. now eexists.
Qed.

Lemma distribution_gAperture_body `{GPhoton} `{Sklearn}
  (data : Band -> DataFrame) (band : Band) :
  distribution_gAperture data band
  = match kde_gAperture band (data band) with
    | Ok _ => Ok (file_name band Distribution Processed)
    | Raise e => Raise e
    end.
Proof.
  unfold distribution_gAperture. rewrite hist_gAperture_rows. cbn [bind].
  destruct (kde_gAperture band (data band)) as [r|e]; cbn [bind];
    [|reflexivity].
  destruct (median_gAperture_ok band (data band)) as [m ->]. cbn [bind].
  apply savefig_name_ok.
Qed.

Lemma distribution_MCAT_body `{GPhoton} `{Sklearn}
  (data : Band -> DataFrame) (band : Band) :
  distribution_MCAT data band
  = match kde_MCAT band (data band) with
    | Ok _ => Ok (file_name band Distribution Catalog)
    | Raise e => Raise e
    end.
Proof.
  unfold distribution_MCAT. rewrite hist_MCAT_rows. cbn [bind].
  destruct (kde_MCAT band (data band)) as [r|e]; cbn [bind]; [|reflexivity].
  destruct (median_MCAT_ok band (data band)) as [m ->]. cbn [bind].
  apply savefig_name_ok.
Qed.

Lemma timeseries_gAperture_ok `{GPhoton} (data : Band -> DataFrame)
  (band : Band) :
  (exists n, timeseries_gAperture data band = Ok n) <-> ix (data band) <> [].
Proof.
  rewrite timeseries_gAperture_body.
  destruct (ix (data band)); split; try discriminate; try congruence.
  - intros [n Hn]. discriminate.
  - intros _. now eexists.
Qed.

Lemma timeseries_MCAT_ok `{GPhoton} (data : Band -> DataFrame) (band : Band) :
  (exists n, timeseries_MCAT data band = Ok n) <-> ix (data band) <> [].
Proof.
  rewrite timeseries_MCAT_body.
  destruct (ix (data band)); split; try discriminate; try congruence.
  - intros [n Hn]. discriminate.
  - intros _. now eexists.
Qed.

Lemma distribution_gAperture_ok `{GPhoton} `{Sklearn}
  (data : Band -> DataFrame) (band : Band) :
  (exists n, distribution_gAperture data band = Ok n) <->
  exists r, kde_gAperture band (data band) = Ok r.
Proof.
  rewrite distribution_gAperture_body.
  destruct (kde_gAperture band (data band)) as [r|e]; split.
  - intros _. now exists r.
  - intros _. now eexists.
  - intros [n Hn]. discriminate.
  - intros [r Hr]. discriminate.
Qed.

Lemma distribution_MCAT_ok `{GPhoton} `{Sklearn}
  (data : Band -> DataFrame) (band : Band) :
  (exists n, distribution_MCAT data band = Ok n) <->
  exists r, kde_MCAT band (data band) = Ok r.
Proof.
  rewrite distribution_MCAT_body.
  destruct (kde_MCAT band (data band)) as [r|e]; split.
  - intros _. now exists r.
  - intros _. now eexists.
  - intros [n Hn]. discriminate.
  - intros [r Hr]. discriminate.
Qed.

(** The four plotting loops with the names they save under. *)
Lemma savefig_calls_loops `{GPhoton} `{Sklearn} (data : Band -> DataFrame)
  (keys : list Band) :
  savefig_calls data keys
  = run_loops
      (map fst
         [ (timeseries_gAperture data,
            fun b => file_name b TimeSeries Processed);
           (distribution_gAperture data,
            fun b => file_name b Distribution Processed);
           (timeseries_MCAT data, fun b => file_name b TimeSeries Catalog);
           (distribution_MCAT data,
            fun b => file_name b Distribution Catalog) ])
      keys [].
Proof.
  unfold savefig_calls.
  destruct (baseline_loop_ok data keys) as [lines ->].
  cbn [map fst run_loops]. unfold and_then.
  destruct (snd (for_bands (timeseries_gAperture data) keys []));
    [reflexivity|].
  destruct (snd (for_bands (distribution_gAperture data) keys _));
    [reflexivity|].
  destruct (snd (for_bands (timeseries_MCAT data) keys _)); [reflexivity|].
  destruct (for_bands (distribution_MCAT data) keys _) as [saved [e|]];
    reflexivity.
Qed.

Lemma savefig_calls_outcome `{GPhoton} `{Sklearn} (data : Band -> DataFrame)
  (keys : list Band) :
  saves_initial_part (savefig_calls data keys) keys /\
  (snd (savefig_calls data keys) = None <->
   forall b, In b keys -> band_completes data b) /\
  (forall e, snd (savefig_calls data keys) = Some e ->
     exists b, In b keys /\
       (e = ZeroDivisionError /\ ix (data b) = [] \/
        kde_gAperture b (data b) = Raise e \/
        kde_MCAT b (data b) = Raise e)).
Proof.
  rewrite savefig_calls_loops.
  set (loops :=
         [ (timeseries_gAperture data,
            fun b => file_name b TimeSeries Processed);
           (distribution_gAperture data,
            fun b => file_name b Distribution Processed);
           (timeseries_MCAT data, fun b => file_name b TimeSeries Catalog);
           (distribution_MCAT data,
            fun b => file_name b Distribution Catalog) ]).
  assert (Hnames : Forall (fun l => forall b n, fst l b = Ok n -> n = snd l b)
                     loops).
  { repeat constructor; intros b n; cbn [fst snd].
    - rewrite timeseries_gAperture_body.
      destruct (ix (data b)); [discriminate|congruence].
    - rewrite distribution_gAperture_body.
      destruct (kde_gAperture b (data b)); [congruence|discriminate].
    - rewrite timeseries_MCAT_body.
      destruct (ix (data b)); [discriminate|congruence].
    - rewrite distribution_MCAT_body.
      destruct (kde_MCAT b (data b)); [congruence|discriminate]. }
  destruct (run_loops_outcome loops keys Hnames [])
    as [Hpart [Hnone Hraise]].
  assert (Hfull : flat_map (fun l => map (snd l) keys) loops
                  = complete_names keys).
  { unfold loops, complete_names. cbn [flat_map snd].
    now rewrite app_nil_r. }
  rewrite Hfull in Hpart. cbn [app] in Hpart.
  split; [exact Hpart|]. split.
  - rewrite Hnone. split.
    + intros Hall b Hb. split; [|split].
      * apply (timeseries_gAperture_ok data b).
        apply (Hall (timeseries_gAperture data,
                     fun b0 => file_name b0 TimeSeries Processed) b);
          [now left|exact Hb].
      * apply (distribution_gAperture_ok data b).
        apply (Hall (distribution_gAperture data,
                     fun b0 => file_name b0 Distribution Processed) b);
          [right; now left|exact Hb].
      * apply (distribution_MCAT_ok data b).
        apply (Hall (distribution_MCAT data,
                     fun b0 => file_name b0 Distribution Catalog) b);
          [do 3 right; now left|exact Hb].
    + intros Hall l b Hl Hb. destruct (Hall b Hb) as [Hix [Hg Hm]].
      destruct Hl as [<-|[<-|[<-|[<-|[]]]]]; cbn [fst].
      * now apply timeseries_gAperture_ok.
      * now apply distribution_gAperture_ok.
      * now apply timeseries_MCAT_ok.
      * now apply distribution_MCAT_ok.
  - intros e He. destruct (Hraise e He) as [l [b [Hl [Hb Hbody]]]].
    exists b. split; [exact Hb|].
    destruct Hl as [<-|[<-|[<-|[<-|[]]]]]; cbn [fst] in Hbody.
    + rewrite timeseries_gAperture_body in Hbody.
      destruct (ix (data b)); [|discriminate].
      left. split; [congruence|reflexivity].
    + rewrite distribution_gAperture_body in Hbody.
      destruct (kde_gAperture b (data b)); [discriminate|].
      right. left. congruence.
    + rewrite timeseries_MCAT_body in Hbody.
      destruct (ix (data b)); [|discriminate].
      left. split; [congruence|reflexivity].
    + rewrite distribution_MCAT_body in Hbody.
      destruct (kde_MCAT b (data b)); [discriminate|].
      right. right. congruence.
Qed.

Lemma complete_names_length (keys : list Band) :
  length (complete_names keys) = (4 * length keys)%nat.
Proof.
  unfold complete_names. rewrite !length_app, !length_map. lia.
Qed.

(** C5, amended.  Every [savefig] call has a well-formed name, and two calls
    write the same file exactly when they agree on the plot kind, on the
    source and, for a time series only, on the band.  A run saves an
    initial part of the names of the four loops, all of them exactly when
    it does not raise; it does not raise exactly when, for every band, the
    mask is not empty and both calls of [make_kde] return, and then it has
    made four calls per band (time series and distribution, for the
    processed and the catalog magnitudes); when it raises, a band has an
    empty mask (ZeroDivisionError) or a call of [make_kde] raised. *)
Theorem savefig_name_determined `{GPhoton} `{Sklearn} (b1 b2 : Band)
  (k1 k2 : PlotKind) (s1 s2 : Source) (data : Band -> DataFrame)
  (keys : list Band) :
  (exists name, savefig_name b1 k1 s1 = Ok name) /\
  (savefig_name b1 k1 s1 = savefig_name b2 k2 s2 <->
   k1 = k2 /\ s1 = s2 /\ (k1 = TimeSeries -> b1 = b2)) /\
  saves_initial_part (savefig_calls data keys) keys /\
  (snd (savefig_calls data keys) = None <->
   forall b, In b keys -> band_completes data b) /\
  (snd (savefig_calls data keys) = None ->
   fst (savefig_calls data keys) = complete_names keys /\
   length (fst (savefig_calls data keys)) = (4 * length keys)%nat) /\
  (forall e, snd (savefig_calls data keys) = Some e ->
     (length (fst (savefig_calls data keys)) < 4 * length keys)%nat /\
     exists b, In b keys /\
       (e = ZeroDivisionError /\ ix (data b) = [] \/
        kde_gAperture b (data b) = Raise e \/
        kde_MCAT b (data b) = Raise e)).
Proof.
  destruct (savefig_calls_outcome data keys)
    as [[missing [Hsplit Hmiss]] [Hnone Hraise]].
  pose proof (complete_names_length keys) as Hlen.
  split; [|split; [|split; [|split; [|split]]]].
  - destruct b1, k1, s1; eexists; reflexivity.
  - destruct b1, b2, k1, k2, s1, s2; vm_compute;
      (split;
       [ intros E; first [discriminate E | repeat split; congruence]
       | intros [Ek [Es Eb]];
         first [ reflexivity | discriminate Ek | discriminate Es
               | discriminate (Eb eq_refl) ] ]).
  - exists missing. split; assumption.
  - exact Hnone.
  - intros Hn. apply Hmiss in Hn. subst missing.
    rewrite app_nil_r in Hsplit. rewrite <- Hsplit. split; [reflexivity|].
    exact Hlen.
  - intros e He. split; [|now apply Hraise].
    assert (Hne : missing <> []).
    { intros E. apply Hmiss in E. congruence. }
    rewrite Hsplit, length_app in Hlen.
    destruct missing; [congruence|simpl in Hlen; lia].
Qed.

(** Three runs.  With a table whose only row is flagged the first
    time-series body divides by zero and nothing is saved.  With the
    ten-row table (eight valid rows) the time-series loop saves its two
    files and the first call of [make_kde] fails for want of samples.  With
    thirty rows (24 valid) the run saves the eight names of a complete run,
    six of them distinct. *)
Example run_on_flagged_table :
  @savefig_calls Demo.gphoton Demo.sklearn (fun _ => flagged_table) [FUV; NUV]
  = ([], Some ZeroDivisionError).
Proof. reflexivity. Qed.

Example run_on_table10 :
  @savefig_calls Demo.gphoton Demo.sklearn (fun _ => Demo.table10) [FUV; NUV]
  = ([ "./LDS749B_90as_ABMag_FUV.pdf"; "./LDS749B_90as_ABMag_NUV.pdf" ],
     Some ValueError).
Proof. vm_compute. reflexivity. Qed.

Lemma kde_gAperture_sample `{GPhoton} `{Sklearn} (band : Band) (df : DataFrame) :
  kde_gAperture band df
  = make_kde (map (fun r => mag_mcatbgsub r - apcorrect1 radius band)
                (filter valid df))
      (magrange_gAperture band) default_bwrange.
Proof.
  unfold kde_gAperture, mags_gAperture, column. rewrite map_map.
  change (map (fun r => mag_mcatbgsub r - apcorrect1 radius band) df)
    with (column (fun r => mag_mcatbgsub r - apcorrect1 radius band) df).
  now rewrite getitems_ix.
Qed.

Lemma kde_MCAT_sample `{GPhoton} `{Sklearn} (band : Band) (df : DataFrame) :
  kde_MCAT band df
  = make_kde (map (fun r => aper4 r - apcorrect1 (aper2deg 4) band)
                (filter valid df))
      (magrange_MCAT band) default_bwrange.
Proof.
  unfold kde_MCAT, mags_MCAT, column. rewrite map_map.
  change (map (fun r => aper4 r - apcorrect1 (aper2deg 4) band) df)
    with (column (fun r => aper4 r - apcorrect1 (aper2deg 4) band) df).
  now rewrite getitems_ix.
Qed.

Example run_on_table30 :
  @savefig_calls Demo.gphoton Demo.sklearn (fun _ => table30) [FUV; NUV]
  = ([ "./LDS749B_90as_ABMag_FUV.pdf";
       "./LDS749B_90as_ABMag_NUV.pdf";
       "./LDS749B_90as_ABMag_dist.pdf";
       "./LDS749B_90as_ABMag_dist.pdf";
       "./LDS749B_90as_ABMag_FUV_MCAT.pdf";
       "./LDS749B_90as_ABMag_NUV_MCAT.pdf";
       "./LDS749B_90as_ABMag_dist_MCAT.pdf";
       "./LDS749B_90as_ABMag_dist_MCAT.pdf" ], None).
Proof.
  destruct (@savefig_calls_outcome Demo.gphoton Demo.sklearn
              (fun _ => table30) [FUV; NUV])
    as [[missing [Hsplit Hmiss]] [Hnone _]].
  assert (Hdone : snd (@savefig_calls Demo.gphoton Demo.sklearn
                         (fun _ => table30) [FUV; NUV]) = None).
  { apply Hnone. intros b _. split; [discriminate|].
    split.
    - rewrite kde_gAperture_sample.
      destruct (@make_kde_total Demo.sklearn
                  (map (fun r => mag_mcatbgsub r
                                 - @apcorrect1 Demo.gphoton radius b)
                     (filter valid table30))
                  (magrange_gAperture b) default_bwrange)
        as [x [y [peak [bw [Hok _]]]]]; [|exists (x, y, peak, bw); exact Hok].
      apply demo_library_succeeds. rewrite length_map.
      apply Nat.leb_le. reflexivity.
    - rewrite kde_MCAT_sample.
      destruct (@make_kde_total Demo.sklearn
                  (map (fun r => aper4 r
                                 - @apcorrect1 Demo.gphoton
                                     (@aper2deg Demo.gphoton 4) b)
                     (filter valid table30))
                  (magrange_MCAT b) default_bwrange)
        as [x [y [peak [bw [Hok _]]]]]; [|exists (x, y, peak, bw); exact Hok].
      apply demo_library_succeeds. rewrite length_map.
      apply Nat.leb_le. reflexivity. }
  apply Hmiss in Hdone as Hnil. subst missing. rewrite app_nil_r in Hsplit.
  destruct (@savefig_calls Demo.gphoton Demo.sklearn
              (fun _ => table30) [FUV; NUV]) as [saved raised].
  cbn [fst snd] in *. subst saved raised. reflexivity.
Qed.
